(** * EncryptedPokerGame: the game ledger and its session client

    A shallow embedding of [contracts/EncryptedPokerGame.sol] (the game
    ledger) and of the two mutations of the React component
    [PokerGame.tsx] (the session client), followed by the properties of
    the session life cycle, the settlement rules and the owner
    operations. *)

From stdpp Require Import base option list gmap strings.
From Stdlib Require Import ZArith Lia.

Open Scope Z_scope.

(** ** Machine integers *)

(** Solidity's [uint256] and [uint8] are integers with wrap-around; an
    explicit conversion to a narrower type keeps the low bits. *)
Definition uint256 (x : Z) : Z := x mod 2 ^ 256.
Definition uint8 (x : Z) : Z := x mod 2 ^ 8.

(** ** Constants of the contract (wei) *)

Definition GAME_FEE : Z := 1000000000000000.
Definition SUIT_REWARD : Z := 100000000000000.
Definition RANK_REWARD : Z := 1000000000000000.
Definition FULL_REWARD : Z := 2000000000000000.

(** ** Data model *)

(** Addresses are 160-bit numbers, ciphertext handles ([euint8], a
    user-defined value type over [bytes32]) are 256-bit numbers. *)
Abbreviation address := Z (only parsing).
Abbreviation euint8 := Z (only parsing).
Abbreviation bytes32 := Z (only parsing).

Record GameSession : Type := mkSession {
  encryptedSuit : euint8;
  encryptedRank : euint8;
  suit : Z;
  rank : Z;
  active : bool
}.

(** The value every slot of a Solidity mapping holds until it is written,
    and again after [delete]. *)
Definition zeroSession : GameSession :=
  {| encryptedSuit := 0; encryptedRank := 0; suit := 0; rank := 0;
     active := false |}.

(** The contract's storage together with its ether balance. *)
Record Ledger : Type := mkLedger {
  games : gmap Z GameSession;
  _owner : address;
  _nonce : Z;
  balance : Z
}.

(** [games[player]]: a mapping is total, an unwritten key reads as zero. *)
Definition session_of (s : Ledger) (player : address) : GameSession :=
  default zeroSession (games s !! player).

Inductive Event : Type :=
| GameStarted (player : address) (encSuit encRank : bytes32)
| GuessEvaluated (player : address) (suitMatched rankMatched : bool) (reward : Z)
| OwnershipTransferred (previousOwner newOwner : address).

Inductive Error : Type :=
| ActiveGameExists
| InvalidFee
| InvalidGuess
| NoActiveGame
| TransferFailed
| InsufficientBankroll
| AmountExceedsBalance
| NotOwner
| InvalidOwner
| InvalidRecipient.

(** The block fields read by the contract. *)
Record Block : Type := mkBlock { prevrandao : Z; timestamp : Z }.

(** ** Execution monad

    A call runs over the storage, the log of emitted events and the trace
    of the value transfers it makes.  Each transfer is recorded with the
    ledger as the callee finds it: the storage as written so far, and the
    balance without the value, which has already left. *)

Record CallFrame : Type := mkFrame {
  call_to : address;
  call_value : Z;
  call_ledger : Ledger
}.

Record World : Type := mkWorld {
  ledger : Ledger;
  logs : list Event;
  calls : list CallFrame
}.

Definition M (A : Type) : Type := World → (Error + A) * World.

#[global] Instance M_ret : MRet M := λ A x w, (inr x, w).

#[global] Instance M_bind : MBind M := λ A B f m w,
  match m w with
  | (inl e, w') => (inl e, w')
  | (inr a, w') => f a w'
  end.

Definition revert {A} (e : Error) : M A := λ w, (inl e, w).

Definition get_ledger : M Ledger := λ w, (inr (ledger w), w).

Definition put_ledger (s : Ledger) : M unit := λ w,
  (inr (), {| ledger := s; logs := logs w; calls := calls w |}).

Definition emit (ev : Event) : M unit := λ w,
  (inr (), {| ledger := ledger w; logs := logs w ++ [ev]; calls := calls w |}).

(** Storage accessors. *)

Definition set_games (g : gmap Z GameSession) (s : Ledger) : Ledger :=
  {| games := g; _owner := _owner s; _nonce := _nonce s; balance := balance s |}.

Definition set_owner (o : address) (s : Ledger) : Ledger :=
  {| games := games s; _owner := o; _nonce := _nonce s; balance := balance s |}.

Definition set_nonce (n : Z) (s : Ledger) : Ledger :=
  {| games := games s; _owner := _owner s; _nonce := n; balance := balance s |}.

Definition set_balance (b : Z) (s : Ledger) : Ledger :=
  {| games := games s; _owner := _owner s; _nonce := _nonce s; balance := b |}.

Definition load_session (player : address) : M GameSession :=
  s ← get_ledger; mret (session_of s player).

Definition store_session (player : address) (g : GameSession) : M unit :=
  s ← get_ledger; put_ledger (set_games (<[player := g]> (games s)) s).

Definition delete_session (player : address) : M unit :=
  s ← get_ledger; put_ledger (set_games (delete player (games s)) s).

Definition this_balance : M Z := s ← get_ledger; mret (balance s).

(** ** Transactions

    A call that reverts leaves neither storage changes nor events; the
    trace of the transfers it attempted is kept for inspection. *)

Record Receipt (A : Type) : Type := mkReceipt {
  status : Error + A;
  post : Ledger;
  emitted : list Event;
  trace : list CallFrame
}.
Arguments status {A} _.
Arguments post {A} _.
Arguments emitted {A} _.
Arguments trace {A} _.

Definition run {A} (body : M A) (s : Ledger) : Receipt A :=
  match body {| ledger := s; logs := []; calls := [] |} with
  | (inr a, w) =>
      {| status := inr a; post := ledger w; emitted := logs w; trace := calls w |}
  | (inl e, w) =>
      {| status := inl e; post := s; emitted := []; trace := calls w |}
  end.

(** A payable call: the value sent is credited before the body runs and
    returns to the sender with everything else when the body reverts. *)
Definition run_payable {A} (msg_value : Z) (body : M A) (s : Ledger) : Receipt A :=
  match body {| ledger := set_balance (balance s + msg_value) s;
                logs := []; calls := [] |} with
  | (inr a, w) =>
      {| status := inr a; post := ledger w; emitted := logs w; trace := calls w |}
  | (inl e, w) =>
      {| status := inl e; post := s; emitted := []; trace := calls w |}
  end.

Definition succeeded {A} (r : Receipt A) : bool :=
  match status r with inr _ => true | inl _ => false end.

(** [receive() external payable {}]: a plain deposit. *)
Definition receive : M unit := mret ().

(** ** What the recipient of a transfer does

    The contract pays with [to.call{value: v}("")], which hands control
    and all the gas to the recipient, and it has no lock: before it
    answers, the recipient may call the contract's functions, itself or
    through other contracts, and the accounts it pays in turn may do the
    same.  A script lists these calls in order and ends by taking the
    value ([Done]) or by reverting ([Refuse]), which undoes the transfer
    and every call of the script.  An externally owned account is [Done].
    A transfer to the contract's own address runs [receive] and puts the
    value back: it is the script [ThenDeposit v Done].  Values sent and
    amounts are [uint256], hence natural numbers. *)
Inductive Script : Type :=
| Refuse
| Done
| ThenStartGame (sender : address) (msg_value : N) (rest : Script)
| ThenMakeGuess (sender : address) (suitGuess rankGuess : Z) (inner rest : Script)
| ThenWithdraw (sender recipient : address) (amount : N) (inner rest : Script)
| ThenTransferOwnership (sender newOwner : address) (rest : Script)
| ThenDeposit (msg_value : N) (rest : Script).

(** A call made from inside a transfer is a transaction of its own: its
    effects stay when it succeeds and vanish when it reverts, and the
    caller goes on either way. *)
Definition nested {A} (call : Ledger → Receipt A) : M unit := λ w,
  let receipt := call (ledger w) in
  (inr (), {| ledger := post receipt; logs := logs w ++ emitted receipt;
              calls := calls w ++ trace receipt |}).

(** The code of an externally owned account: it takes what it is sent. *)
Definition plain_account : M bool := mret true.

(** The guesses [makeGuess] accepts. *)
Definition in_range (suitGuess rankGuess : Z) : Prop :=
  1 ≤ suitGuess ≤ 4 ∧ 1 ≤ rankGuess ≤ 13.

(** The ledger after the two storage writes that close a session. *)
Definition cleared (sender : address) (s : Ledger) : Ledger :=
  set_games
    (delete sender
       (<[sender := {| encryptedSuit := encryptedSuit (session_of s sender);
                       encryptedRank := encryptedRank (session_of s sender);
                       suit := suit (session_of s sender);
                       rank := rank (session_of s sender);
                       active := false |}]> (games s))) s.

Section Ledger.

(** ** Collaborators outside the contract *)

(** [keccak256(abi.encodePacked(prevrandao, timestamp, player, nonce))]. *)
Variable keccak256_packed : Z → Z → address → Z → Z.

(** The encryption library: trivial encryption of a clear value, the two
    access grants and the conversion of a handle to [bytes32].  The
    library is not part of the repository: the handles it returns are
    inputs, and what its own contracts do and log when called is outside
    the model.  [emitted] lists the events of the game contract alone and
    [trace] the transfers of value it makes. *)
Variable FHE_asEuint8 : Z → euint8.
Variable FHE_allowThis : euint8 → euint8.
Variable FHE_allow : euint8 → address → euint8.
Variable FHE_toBytes32 : euint8 → bytes32.

(** [to.call{value: v}("")] with [code] the code at address [to]:
    [plain_account] for an externally owned account, [perform] of a script
    for a contract, and for the contract's own address its [receive],
    which puts the value back.  A value above the balance fails at once.
    Otherwise the value leaves the balance and the recipient runs on the
    ledger as it then stands, with everything it can do to it; when it
    answers [true] its effects and events stay, and when it fails the
    value returns and the ledger is as before the call. *)
Definition call_value_to (to : address) (v : Z) (code : M bool) : M bool := λ w,
  let s := ledger w in
  if balance s <? v then (inr false, w)
  else
    let s1 := set_balance (balance s - v) s in
    let frame := {| call_to := to; call_value := v; call_ledger := s1 |} in
    match code {| ledger := s1; logs := []; calls := [] |} with
    | (inr true, w') =>
        (inr true,
         {| ledger := ledger w'; logs := logs w ++ logs w';
            calls := calls w ++ frame :: calls w' |})
    | (_, w') =>
        (inr false,
         {| ledger := s; logs := logs w; calls := calls w ++ frame :: calls w' |})
    end.

(** ** The contract's functions *)

Definition onlyOwner (sender : address) : M unit :=
  s ← get_ledger;
  if negb (sender =? _owner s) then revert NotOwner else mret ().

Definition transferOwnership (sender newOwner : address) : M unit :=
  onlyOwner sender;;
  if newOwner =? 0 then revert InvalidOwner else
  s ← get_ledger;
  let previousOwner := _owner s in
  put_ledger (set_owner newOwner s);;
  emit (OwnershipTransferred previousOwner newOwner).

Definition suit_of_seed (randomSeed : Z) : Z := uint8 (randomSeed mod 4 + 1).
Definition rank_of_seed (randomSeed : Z) : Z :=
  uint8 ((Z.shiftr randomSeed 16) mod 13 + 1).

Definition _drawCard (blk : Block) (player : address) : M (Z * Z) :=
  s ← get_ledger;
  let randomSeed :=
    uint256 (keccak256_packed (prevrandao blk) (timestamp blk) player (_nonce s)) in
  put_ledger (set_nonce (uint256 (_nonce s + 1)) s);;
  mret (suit_of_seed randomSeed, rank_of_seed randomSeed).

(** [startGame] is payable: [msg_value] is already part of the balance
    when the body runs (see [run_payable]). *)
Definition startGame (blk : Block) (sender : address) (msg_value : Z)
  : M (bytes32 * bytes32) :=
  if negb (msg_value =? GAME_FEE) then revert InvalidFee else
  session ← load_session sender;
  if active session then revert ActiveGameExists else
  bal ← this_balance;
  if bal <? FULL_REWARD then revert InsufficientBankroll else
  '(suitValue, rankValue) ← _drawCard blk sender;
  let suitCipher := FHE_asEuint8 suitValue in
  let rankCipher := FHE_asEuint8 rankValue in
  let suitCipher := FHE_allowThis suitCipher in
  let rankCipher := FHE_allowThis rankCipher in
  let suitCipher := FHE_allow suitCipher sender in
  let rankCipher := FHE_allow rankCipher sender in
  store_session sender
    {| encryptedSuit := suitCipher; encryptedRank := rankCipher;
       suit := suitValue; rank := rankValue; active := true |};;
  let encSuit := FHE_toBytes32 suitCipher in
  let encRank := FHE_toBytes32 rankCipher in
  emit (GameStarted sender encSuit encRank);;
  mret (encSuit, encRank).

(** The reward chosen by the [if] / [else if] chain of [makeGuess]. *)
Definition guess_reward (suitMatched rankMatched : bool) : Z :=
  if suitMatched && rankMatched then FULL_REWARD
  else if rankMatched then RANK_REWARD
  else if suitMatched then SUIT_REWARD
  else 0.

(** The two guesses are [uint8]; the guard rejects every value outside
    the ranges, so the arguments are left to range over [Z].  [reward] is
    the local [uint256 reward], zero unless one of the branches of
    [guess_reward] assigns it.  [code] is the code of the caller, run by
    the transfer of the reward. *)
Definition makeGuess (code : M bool) (sender : address) (suitGuess rankGuess : Z)
  : M unit :=
  if (suitGuess <? 1) || (suitGuess >? 4) || (rankGuess <? 1) || (rankGuess >? 13)
  then revert InvalidGuess else
  session ← load_session sender;
  if negb (active session) then revert NoActiveGame else
  let suitMatched := suit session =? suitGuess in
  let rankMatched := rank session =? rankGuess in
  let reward := guess_reward suitMatched rankMatched in
  store_session sender
    {| encryptedSuit := encryptedSuit session;
       encryptedRank := encryptedRank session;
       suit := suit session; rank := rank session; active := false |};;
  delete_session sender;;
  (if 0 <? reward then
     bal ← this_balance;
     if bal <? reward then revert InsufficientBankroll else
     success ← call_value_to sender reward code;
     if negb success then revert TransferFailed else mret ()
   else mret ());;
  emit (GuessEvaluated sender suitMatched rankMatched reward).

Definition getActiveGame (s : Ledger) (player : address) : bool * bytes32 * bytes32 :=
  let session := session_of s player in
  if active session
  then (true, FHE_toBytes32 (encryptedSuit session),
        FHE_toBytes32 (encryptedRank session))
  else (false, 0, 0).

(** [code] is the code of the recipient. *)
Definition withdraw (code : M bool) (sender recipient : address) (amount : Z)
  : M unit :=
  onlyOwner sender;;
  if recipient =? 0 then revert InvalidRecipient else
  bal ← this_balance;
  if amount >? bal then revert AmountExceedsBalance else
  success ← call_value_to recipient amount code;
  if negb success then revert TransferFailed else mret ().

Definition houseBalance (s : Ledger) : Z := balance s.

(** The code of a recipient that follows [script], in block [blk]: the
    calls it makes into the contract, each with the code of whoever that
    call pays, then its answer. *)
Fixpoint perform (blk : Block) (script : Script) : M bool :=
  match script with
  | Refuse => mret false
  | Done => mret true
  | ThenStartGame sender v rest =>
      nested (run_payable (Z.of_N v) (startGame blk sender (Z.of_N v)));;
      perform blk rest
  | ThenMakeGuess sender suitGuess rankGuess inner rest =>
      nested (run (makeGuess (perform blk inner) sender suitGuess rankGuess));;
      perform blk rest
  | ThenWithdraw sender recipient amount inner rest =>
      nested (run (withdraw (perform blk inner) sender recipient (Z.of_N amount)));;
      perform blk rest
  | ThenTransferOwnership sender newOwner rest =>
      nested (run (transferOwnership sender newOwner));;
      perform blk rest
  | ThenDeposit v rest =>
      nested (run_payable (Z.of_N v) receive);;
      perform blk rest
  end.

(** The ledger after a successful [startGame] by [sender] in block [blk]. *)
Definition started (blk : Block) (sender : address) (s : Ledger) : Ledger :=
  let seed :=
    uint256 (keccak256_packed (prevrandao blk) (timestamp blk) sender (_nonce s)) in
  {| games :=
       <[sender :=
           {| encryptedSuit :=
                FHE_allow (FHE_allowThis (FHE_asEuint8 (suit_of_seed seed))) sender;
              encryptedRank :=
                FHE_allow (FHE_allowThis (FHE_asEuint8 (rank_of_seed seed))) sender;
              suit := suit_of_seed seed;
              rank := rank_of_seed seed;
              active := true |}]> (games s);
     _owner := _owner s;
     _nonce := uint256 (_nonce s + 1);
     balance := balance s + GAME_FEE |}.

Definition start_handles (blk : Block) (sender : address) (s : Ledger)
  : bytes32 * bytes32 :=
  let seed :=
    uint256 (keccak256_packed (prevrandao blk) (timestamp blk) sender (_nonce s)) in
  (FHE_toBytes32 (FHE_allow (FHE_allowThis (FHE_asEuint8 (suit_of_seed seed))) sender),
   FHE_toBytes32 (FHE_allow (FHE_allowThis (FHE_asEuint8 (rank_of_seed seed))) sender)).

End Ledger.

(** ** Reachable states

    The ledger is deployed with an empty mapping, the deployer as owner
    and the nonce at zero; afterwards it changes by plain deposits
    ([receive]) and by calls of its four external functions, from any
    sender, in any block, whatever the accounts it pays do meanwhile. *)

Section Reachability.

Variable keccak256_packed : Z → Z → address → Z → Z.
Variable FHE_asEuint8 : Z → euint8.
Variable FHE_allowThis : euint8 → euint8.
Variable FHE_allow : euint8 → address → euint8.
Variable FHE_toBytes32 : euint8 → bytes32.

Definition deployed (deployer : address) (funds : Z) : Ledger :=
  {| games := ∅; _owner := deployer; _nonce := 0; balance := funds |}.

Inductive step : Ledger → Ledger → Prop :=
| step_receive s v :
    0 ≤ v → step s (set_balance (balance s + v) s)
| step_startGame s blk sender v :
    0 ≤ v →
    step s (post (run_payable v
                    (startGame keccak256_packed FHE_asEuint8 FHE_allowThis
                       FHE_allow FHE_toBytes32 blk sender v) s))
| step_makeGuess s blk callee sender suitGuess rankGuess :
    step s (post (run (makeGuess
                         (perform keccak256_packed FHE_asEuint8 FHE_allowThis
                            FHE_allow FHE_toBytes32 blk callee)
                         sender suitGuess rankGuess) s))
| step_withdraw s blk callee sender recipient amount :
    0 ≤ amount →
    step s (post (run (withdraw
                         (perform keccak256_packed FHE_asEuint8 FHE_allowThis
                            FHE_allow FHE_toBytes32 blk callee)
                         sender recipient amount) s))
| step_transferOwnership s sender newOwner :
    step s (post (run (transferOwnership sender newOwner) s)).

Inductive reachable : Ledger → Prop :=
| reachable_deployed deployer funds :
    0 ≤ funds → reachable (deployed deployer funds)
| reachable_step s s' :
    reachable s → step s s' → reachable s'.

End Reachability.

(** The sessions stored for a player that are active. *)
Definition active_sessions (s : Ledger) (player : address) : list GameSession :=
  (filter (λ kv, kv.1 = player ∧ active kv.2 = true) (map_to_list (games s))).*2.

(** Sessions are stored only while active, with a card in range; the
    balance is never negative and the nonce is a [uint256]. *)
Definition ledger_ok (s : Ledger) : Prop :=
  (∀ player g, games s !! player = Some g →
     active g = true ∧ 1 ≤ suit g ≤ 4 ∧ 1 ≤ rank g ≤ 13) ∧
  0 ≤ balance s ∧
  0 ≤ _nonce s < 2 ^ 256.

(** ** Distribution of the drawn card over the seeds

    [count_below p n] is the number of seeds below [n] for which [p]
    holds; the seeds are the [2 ^ 256] values of a [uint256]. *)

Fixpoint count_below (p : Z → bool) (n : nat) : Z :=
  match n with
  | O => 0
  | S k => count_below p k + (if p (Z.of_nat k) then 1 else 0)
  end.

Definition seeds_with_suit (v : Z) : Z :=
  count_below (λ seed, suit_of_seed seed =? v) (Z.to_nat (2 ^ 256)).

Definition seeds_with_rank (v : Z) : Z :=
  count_below (λ seed, rank_of_seed seed =? v) (Z.to_nat (2 ^ 256)).

(** Every value between [lo] and [hi] is drawn by equally many seeds. *)
Definition uniform_on (count : Z → Z) (lo hi : Z) : Prop :=
  ∀ v w, lo ≤ v ≤ hi → lo ≤ w ≤ hi → count v = count w.

(** [2 ^ 240 = 13 * rank_quota + 1]. *)
Definition rank_quota : Z := (2 ^ 240 - 1) / 13.

(** ** The session client ([PokerGame.tsx])

    The two mutations of the component and the feedback they leave on the
    page.  The wallet, the signer and the network are inputs: whether a
    wallet is connected, whether a signer is available, and what became of
    the submitted transaction. *)

Module Client.

(** What [contractInterface.parseLog] makes of one log of a receipt: it
    throws on a log of another contract, returns [null] for an unknown
    topic, or describes one of the contract's three events. *)
Inductive LogDescription : Type :=
| GameStarted (player encryptedSuit encryptedRank : string)
| GuessEvaluated (player : string) (suitMatched rankMatched : bool) (reward : Z)
| OwnershipTransferred (previousOwner newOwner : string).

Inductive ParsedLog : Type :=
| Throws
| Null
| Described (description : LogDescription).

(** The values the mutations throw or are rejected with: an [Error] made
    by the client, or the provider's error for a failed transaction, which
    may carry the contract's custom error in its [data]. *)
Inductive Thrown : Type :=
| ClientError (message : string)
| ProviderError (data : option Error) (message : string).

(** [contract.startGame(...)] / [contract.makeGuess(...)] followed by
    [tx.wait()]: the call is rejected, or the receipt arrives. *)
Inductive Submitted : Type :=
| Failed (error : Thrown)
| Confirmed (logs : list ParsedLog).

Inductive Settled (A : Type) : Type :=
| Resolved (value : A)
| Rejected (error : Thrown).
Arguments Resolved {A} _.
Arguments Rejected {A} _.

Inductive FeedbackType : Type := success | error.

Record Feedback : Type := mkFeedback { type : FeedbackType; message : string }.

Record GuessResult : Type := mkGuessResult {
  suitMatched : bool;
  rankMatched : bool;
  reward : Z
}.

Definition messageMap (name : Error) : string :=
  match name with
  | ActiveGameExists =>
      "You already have an active game. Finish it before starting another."
  | InvalidFee => "The transaction did not include the required game fee."
  | InvalidGuess => "Guesses must use suits 1-4 and ranks 1-13."
  | NoActiveGame => "No active game found for this wallet."
  | InsufficientBankroll =>
      "The house balance is too low to cover the full reward. Fund the contract before starting."
  | TransferFailed => "A reward transfer failed. Please try again."
  | AmountExceedsBalance => "Requested withdrawal exceeds the available balance."
  | NotOwner => "Only the contract owner can perform this action."
  | InvalidOwner => "New owner address cannot be zero."
  | InvalidRecipient => "Recipient address cannot be zero."
  end.

(** [formatError] on the error objects these paths produce: the message
    of the decoded custom error when the error carries one in its [data]
    (every error of the contract's interface has an entry in the map), the
    error's own message otherwise.  Its branches for values that are not
    [Error] objects are never taken here. *)
Definition formatError (e : Thrown) : string :=
  match e with
  | ProviderError (Some name) _ => messageMap name
  | ProviderError None message => message
  | ClientError message => message
  end.

(** The scan of [receipt.logs] in [startGameMutation]: the handles of the
    first [GameStarted] log; logs that do not parse are skipped. *)
Fixpoint scanGameStarted (logs : list ParsedLog) : option (string * string) :=
  match logs with
  | [] => None
  | Described (GameStarted _ encSuit encRank) :: _ => Some (encSuit, encRank)
  | _ :: rest => scanGameStarted rest
  end.

(** The scan in [guessMutation]: the first [GuessEvaluated] log. *)
Fixpoint scanGuessEvaluated (logs : list ParsedLog) : option GuessResult :=
  match logs with
  | [] => None
  | Described (GuessEvaluated _ sm rm rw) :: _ =>
      Some {| suitMatched := sm; rankMatched := rm; reward := rw |}
  | _ :: rest => scanGuessEvaluated rest
  end.

(** JavaScript's truthiness of a string. *)
Definition truthy (s : string) : bool := negb (String.eqb s EmptyString).

Definition startGameMutation (isConnected signer : bool) (tx : Submitted)
  : Settled (option (string * string)) :=
  if negb isConnected then
    Rejected (ClientError "Connect a wallet on Sepolia to start.")
  else if negb signer then
    Rejected (ClientError "Wallet signer unavailable.")
  else
    match tx with
    | Failed e => Rejected e
    | Confirmed logs =>
        match scanGameStarted logs with
        | Some (suitHandle, rankHandle) =>
            Resolved (if truthy suitHandle && truthy rankHandle
                      then Some (suitHandle, rankHandle) else None)
        | None => Resolved None
        end
    end.

Definition guessMutation (isConnected activeGame signer : bool) (tx : Submitted)
  : Settled GuessResult :=
  if negb isConnected then
    Rejected (ClientError "Connect a wallet to submit a guess.")
  else if negb activeGame then
    Rejected (ClientError "Start a game before guessing.")
  else if negb signer then
    Rejected (ClientError "Wallet signer unavailable.")
  else
    match tx with
    | Failed e => Rejected e
    | Confirmed logs =>
        match scanGuessEvaluated logs with
        | Some result => Resolved result
        | None =>
            Rejected (ClientError "Unable to read guess result from transaction logs.")
        end
    end.

(** The component's state that the mutations write. *)
Record Page : Type := mkPage {
  feedback : option Feedback;
  guessResult : option GuessResult;
  lastHandles : option (string * string)
}.

Definition initialPage : Page :=
  {| feedback := None; guessResult := None; lastHandles := None |}.

Section Feedback.

(** [ethers.formatEther]. *)
Variable formatEther : Z → string.

(** [onSuccess] and [onError] of [startGameMutation]. *)
Definition startGameSettled (outcome : Settled (option (string * string)))
    (page : Page) : Page :=
  match outcome with
  | Resolved handles =>
      {| feedback :=
           Some {| type := success;
                   message := "A fresh encrypted card is ready. Time to guess!" |};
         guessResult := None;
         lastHandles := handles |}
  | Rejected e =>
      {| feedback := Some {| type := error; message := formatError e |};
         guessResult := guessResult page;
         lastHandles := lastHandles page |}
  end.

(** [onSuccess] and [onError] of [guessMutation]. *)
Definition guessSettled (outcome : Settled GuessResult) (page : Page) : Page :=
  match outcome with
  | Resolved result =>
      let rewardText :=
        if 0 <? reward result
        then formatEther (reward result) +:+ " ETH rewarded."
        else "No payout this round." in
      {| feedback :=
           Some
             (if 0 <? reward result then
                {| type := success; message := "Victory! " +:+ rewardText |}
              else if suitMatched result || rankMatched result then
                {| type := success;
                   message :=
                     "Close call! "
                     +:+ (if suitMatched result then "Suit matched. " else EmptyString)
                     +:+ (if rankMatched result then "Rank matched." else "Rank missed.")
                     +:+ " " +:+ rewardText |}
              else
                {| type := error; message := "No matches. Try another combination." |});
         guessResult := Some result;
         lastHandles := lastHandles page |}
  | Rejected e =>
      {| feedback := Some {| type := error; message := formatError e |};
         guessResult := guessResult page;
         lastHandles := lastHandles page |}
  end.

End Feedback.

End Client.

(** ** Concrete collaborators used in the examples *)

Module Demo.
Definition keccak (prevrandao timestamp : Z) (player : address) (nonce : Z) : Z :=
  prevrandao + timestamp + player + nonce.
Definition asEuint8 (v : Z) : euint8 := 1000 + v.
Definition allowThis (c : euint8) : euint8 := c.
Definition allow (c : euint8) (who : address) : euint8 := c.
Definition toBytes32 (c : euint8) : bytes32 := c.

Definition alice : address := 7.
Definition house : address := 1.

(** Alice holds the two of spades, say: suit 3, rank 2. *)
Definition card : GameSession :=
  {| encryptedSuit := 1003; encryptedRank := 1002; suit := 3; rank := 2;
     active := true |}.

Definition table (bal : Z) : Ledger :=
  {| games := {[ alice := card ]}; _owner := house; _nonce := 1; balance := bal |}.

(** A block in which Alice, at nonce 0, draws exactly this card: the seed
    is [65531 + 0 + 7 + 0 = 2 ^ 16 + 2]. *)
Definition block : Block := {| prevrandao := 65531; timestamp := 0 |}.

(** The code of an account that follows [script] when it is paid. *)
Definition code (script : Script) : M bool :=
  perform keccak asEuint8 allowThis allow toBytes32 block script.

(** A contract that, when it is paid, sends the fee and starts a game of
    its own before it takes the payment. *)
Definition restarts (who : address) : Script :=
  ThenStartGame who 1000000000000000 Done.
End Demo.

(** ** The rest of the contract *)

(** The constructor, run on the blank storage of the new contract. *)
Definition constructor (sender : address) : M unit :=
  s ← get_ledger;
  put_ledger (set_owner sender s);;
  emit (OwnershipTransferred 0 sender).

(** The storage of a contract before its constructor has run. *)
Definition blank (funds : Z) : Ledger :=
  {| games := ∅; _owner := 0; _nonce := 0; balance := funds |}.

Definition owner (s : Ledger) : address := _owner s.

(** The guesses [makeGuess] lets through: four suits by thirteen ranks. *)
Definition all_guesses : list (Z * Z) :=
  suitGuess ← seqZ 1 4; rankGuess ← seqZ 1 13; [(suitGuess, rankGuess)].

(** What the ledger loses when [sender] makes the guess [g] and takes the
    transfer. *)
Definition paid (s : Ledger) (sender : address) (g : Z * Z) : Z :=
  balance s - balance (post (run (makeGuess plain_account sender g.1 g.2) s)).

(** How many of the guesses are paid [v]. *)
Definition guesses_paid (s : Ledger) (sender : address) (v : Z) : nat :=
  length (filter (λ x, x = v) (paid s sender <$> all_guesses)).

(** ** The rest of the session client *)

Module ClientView.

(** The data of the three read queries. *)
Record GameTerms : Type := mkGameTerms {
  gameFee : Z;
  suitReward : Z;
  rankReward : Z;
  fullReward : Z
}.

(** [{ isActive: true, encryptedSuit, encryptedRank }]. *)
Record ActiveGame : Type := mkActiveGame {
  encryptedSuit : string;
  encryptedRank : string
}.

(** The [queryFn] of the [active-game] query over the answer of
    [getActiveGame]: without a client or an address, and for an inactive
    session, there is no game. *)
Definition activeGameQuery (publicClient : bool) (address : option string)
    (result : bool * string * string) : option ActiveGame :=
  if negb publicClient || negb (bool_decide (is_Some address)) then None
  else if negb result.1.1 then None
  else Some {| encryptedSuit := result.1.2; encryptedRank := result.2 |}.

(** What the component holds when it renders. *)
Record View : Type := mkView {
  isConnected : bool;
  activeGame : option ActiveGame;
  gameTerms : option GameTerms;
  houseBalance : option Z;
  startPending : bool;
  guessPending : bool
}.

Section Controls.

(** The defaults of [config/contracts], used until the terms are read. *)
Variable DEFAULT_GAME_FEE_WEI : Z.
Variable DEFAULT_FULL_REWARD_WEI : Z.

Definition currentGameFee (v : View) : Z :=
  default DEFAULT_GAME_FEE_WEI (gameFee <$> gameTerms v).

Definition currentFullReward (v : View) : Z :=
  default DEFAULT_FULL_REWARD_WEI (fullReward <$> gameTerms v).

Definition currentHouseBalance (v : View) : Z := default 0 (houseBalance v).

Definition projectedBalance (v : View) : Z :=
  currentHouseBalance v + currentGameFee v.

Definition canCoverFullReward (v : View) : bool :=
  currentFullReward v <=? projectedBalance v.

Definition hasTermsData (v : View) : bool := bool_decide (is_Some (gameTerms v)).

Definition hasBalanceData (v : View) : bool :=
  bool_decide (is_Some (houseBalance v)).

Definition isBankrollInsufficient (v : View) : bool :=
  hasBalanceData v && hasTermsData v && negb (canCoverFullReward v).

Definition isStartDisabled (v : View) : bool :=
  negb (isConnected v)
  || bool_decide (is_Some (activeGame v))
  || startPending v
  || guessPending v
  || negb (hasTermsData v)
  || negb (hasBalanceData v)
  || isBankrollInsufficient v.

Definition isGuessDisabled (v : View) : bool :=
  negb (isConnected v) || negb (bool_decide (is_Some (activeGame v)))
  || guessPending v.

End Controls.

Section Reads.

(** The hexadecimal text the client library gives for an address or a
    [bytes32]. *)
Variable hex : Z → string.

(** [contractInterface.parseLog] on a log of the contract itself. *)
Definition parseLog (ev : Event) : Client.ParsedLog :=
  Client.Described
    match ev with
    | GameStarted player encSuit encRank =>
        Client.GameStarted (hex player) (hex encSuit) (hex encRank)
    | GuessEvaluated player suitMatched rankMatched reward =>
        Client.GuessEvaluated (hex player) suitMatched rankMatched reward
    | OwnershipTransferred previousOwner newOwner =>
        Client.OwnershipTransferred (hex previousOwner) (hex newOwner)
    end.

Definition is_described (l : Client.ParsedLog) : bool :=
  match l with Client.Described _ => true | _ => false end.

(** The logs of a receipt that are the contract's own, in order. *)
Definition own_logs (logs : list Client.ParsedLog) : list Client.ParsedLog :=
  filter (λ l, is_described l = true) logs.

End Reads.

End ClientView.

(** The view after the three queries have read the ledger for [player]
    through [getActiveGame], the four constants and [houseBalance]. *)
Definition fresh_view (hex : Z → string) (FHE_toBytes32 : euint8 → bytes32)
    (s : Ledger) (player : address) (connected startPending guessPending : bool)
  : ClientView.View :=
  {| ClientView.isConnected := connected;
     ClientView.activeGame :=
       let '(isActive, encSuit, encRank) := getActiveGame FHE_toBytes32 s player in
       ClientView.activeGameQuery true (Some (hex player))
         (isActive, hex encSuit, hex encRank);
     ClientView.gameTerms :=
       Some {| ClientView.gameFee := GAME_FEE;
               ClientView.suitReward := SUIT_REWARD;
               ClientView.rankReward := RANK_REWARD;
               ClientView.fullReward := FULL_REWARD |};
     ClientView.houseBalance := Some (houseBalance s);
     ClientView.startPending := startPending;
     ClientView.guessPending := guessPending |}.

(** ** The test suite

    The guess the test "resolves a losing guess without payouts" builds
    from the card it decrypts, which is the card the ledger stores. *)

Definition wrongSuit (suit : Z) : Z := if suit =? 4 then 3 else suit + 1.
Definition wrongRank (rank : Z) : Z := if rank =? 13 then 12 else rank + 1.

(** * Properties *)

Ltac exec :=
  unfold run, run_payable, makeGuess, withdraw, transferOwnership, onlyOwner,
    load_session, store_session, delete_session, this_balance, call_value_to,
    get_ledger, put_ledger, emit, revert, mbind, M_bind, mret, M_ret;
  simpl.

Section Transfers.

Variable keccak256_packed : Z → Z → address → Z → Z.
Variable FHE_asEuint8 : Z → euint8.
Variable FHE_allowThis : euint8 → euint8.
Variable FHE_allow : euint8 → address → euint8.
Variable FHE_toBytes32 : euint8 → bytes32.

(** The code of whoever a transfer pays: any code for the lemmas on the
    contract's own steps, a script where a statement follows the callee. *)
Variable code : M bool.

Local Abbreviation perform' :=
  (perform keccak256_packed FHE_asEuint8 FHE_allowThis FHE_allow FHE_toBytes32).

Lemma range_check_true sg rg :
  ¬ in_range sg rg →
  (sg <? 1) || (sg >? 4) || (rg <? 1) || (rg >? 13) = true.
Proof.
  unfold in_range. intros H. rewrite !Z.gtb_ltb.
  destruct (Z.ltb_spec sg 1), (Z.ltb_spec 4 sg), (Z.ltb_spec rg 1),
    (Z.ltb_spec 13 rg); simpl; try reflexivity; lia.
Qed.

Lemma range_check_false sg rg :
  in_range sg rg →
  (sg <? 1) || (sg >? 4) || (rg <? 1) || (rg >? 13) = false.
Proof.
  unfold in_range. intros H. rewrite !Z.gtb_ltb.
  destruct (Z.ltb_spec sg 1), (Z.ltb_spec 4 sg), (Z.ltb_spec rg 1),
    (Z.ltb_spec 13 rg); simpl; try reflexivity; lia.
Qed.

Lemma makeGuess_out_of_range s sender sg rg :
  ¬ in_range sg rg →
  run (makeGuess code sender sg rg) s =
    {| status := inl InvalidGuess; post := s; emitted := []; trace := [] |}.
Proof. intros Hr. exec. rewrite (range_check_true _ _ Hr). reflexivity. Qed.

Lemma makeGuess_no_session s sender sg rg :
  in_range sg rg → active (session_of s sender) = false →
  run (makeGuess code sender sg rg) s =
    {| status := inl NoActiveGame; post := s; emitted := []; trace := [] |}.
Proof.
  intros Hr Ha. exec. rewrite (range_check_false _ _ Hr). simpl.
  rewrite Ha. reflexivity.
Qed.

Lemma cleared_games sender s : games (cleared sender s) = delete sender (games s).
Proof. unfold cleared. simpl. apply delete_insert_eq. Qed.

Lemma cleared_session sender s : session_of (cleared sender s) sender = zeroSession.
Proof. unfold session_of. rewrite cleared_games, lookup_delete_eq. reflexivity. Qed.

Lemma guess_reward_cases sm rm :
  guess_reward sm rm =
    match sm, rm with
    | true, true => FULL_REWARD
    | false, true => RANK_REWARD
    | true, false => SUIT_REWARD
    | false, false => 0
    end.
Proof. destruct sm, rm; reflexivity. Qed.

(** The receipts of an externally owned account and of the contract
    itself when it is sent [v], which its [receive] puts back. *)
Lemma plain_account_run s :
  run plain_account s =
    {| status := inr true; post := s; emitted := []; trace := [] |}.
Proof. reflexivity. Qed.

Lemma perform_Done blk : perform' blk Done = plain_account.
Proof. reflexivity. Qed.

Lemma perform_deposit_back_run blk v s :
  run (perform' blk (ThenDeposit v Done)) s =
    {| status := inr true; post := set_balance (balance s + Z.of_N v) s;
       emitted := []; trace := [] |}.
Proof. reflexivity. Qed.

(** A transfer, seen from the function that makes it: [inner] is the
    receipt of the recipient's code on the ledger without the value. *)
Lemma call_value_to_run to v s l c :
  let s1 := set_balance (balance s - v) s in
  let inner := run code s1 in
  let frame := {| call_to := to; call_value := v; call_ledger := s1 |} in
  call_value_to to v code {| ledger := s; logs := l; calls := c |} =
    if balance s <? v then (inr false, {| ledger := s; logs := l; calls := c |})
    else
      match status inner with
      | inr true =>
          (inr true, {| ledger := post inner; logs := l ++ emitted inner;
                        calls := c ++ frame :: trace inner |})
      | _ =>
          (inr false, {| ledger := s; logs := l; calls := c ++ frame :: trace inner |})
      end.
Proof.
  intros s1 inner frame. subst inner frame. unfold call_value_to, run. cbn [ledger logs calls].
  destruct (balance s <? v); [reflexivity|]. fold s1.
  destruct (code {| ledger := s1; logs := []; calls := [] |}) as [[e|[|]] w'];
    reflexivity.
Qed.

(** What [makeGuess] does once both guards have passed. *)
Lemma makeGuess_settle s sender sg rg :
  in_range sg rg →
  active (session_of s sender) = true →
  let sm := suit (session_of s sender) =? sg in
  let rm := rank (session_of s sender) =? rg in
  let reward := guess_reward sm rm in
  let s1 := cleared sender s in
  let s2 := set_balance (balance s - reward) s1 in
  let inner := run code s2 in
  let frame := {| call_to := sender; call_value := reward; call_ledger := s2 |} in
  run (makeGuess code sender sg rg) s =
    if 0 <? reward then
      if balance s <? reward then
        {| status := inl InsufficientBankroll; post := s; emitted := []; trace := [] |}
      else
        match status inner with
        | inr true =>
            {| status := inr (); post := post inner;
               emitted := emitted inner ++ [GuessEvaluated sender sm rm reward];
               trace := frame :: trace inner |}
        | _ =>
            {| status := inl TransferFailed; post := s; emitted := [];
               trace := frame :: trace inner |}
        end
    else
      {| status := inr (); post := s1;
         emitted := [GuessEvaluated sender sm rm reward]; trace := [] |}.
Proof.
  intros Hr Ha sm rm reward s1 s2 inner frame.
  unfold run at 1, makeGuess.
  rewrite (range_check_false _ _ Hr).
  unfold load_session, store_session, delete_session, this_balance, get_ledger,
    put_ledger, emit, revert, mbind, M_bind, mret, M_ret.
  cbn [ledger logs calls]. rewrite Ha. cbn [negb ledger logs calls].
  fold sm rm. fold reward.
  change (set_games _ (set_games _ s)) with s1.
  destruct (0 <? reward) eqn:Hpos; [|reflexivity].
  cbn [ledger logs calls]. change (balance s1) with (balance s).
  destruct (balance s <? reward) eqn:Hbal; [reflexivity|].
  rewrite (call_value_to_run sender reward s1 [] []).
  change (balance s1) with (balance s). rewrite Hbal.
  fold s2. fold inner. fold frame.
  destruct (status inner) as [e|[|]]; reflexivity.
Qed.

Lemma withdraw_run s sender recipient amount :
  let s1 := set_balance (balance s - amount) s in
  let inner := run code s1 in
  let frame := {| call_to := recipient; call_value := amount; call_ledger := s1 |} in
  run (withdraw code sender recipient amount) s =
    if negb (sender =? _owner s) then
      {| status := inl NotOwner; post := s; emitted := []; trace := [] |}
    else if recipient =? 0 then
      {| status := inl InvalidRecipient; post := s; emitted := []; trace := [] |}
    else if amount >? balance s then
      {| status := inl AmountExceedsBalance; post := s; emitted := []; trace := [] |}
    else
      match status inner with
      | inr true =>
          {| status := inr (); post := post inner; emitted := emitted inner;
             trace := frame :: trace inner |}
      | _ =>
          {| status := inl TransferFailed; post := s; emitted := [];
             trace := frame :: trace inner |}
      end.
Proof.
  intros s1 inner frame.
  unfold run at 1, withdraw, onlyOwner, this_balance, get_ledger, revert, mbind,
    M_bind, mret, M_ret.
  cbn [ledger logs calls].
  destruct (sender =? _owner s); cbn [negb]; [|reflexivity].
  destruct (recipient =? 0); [reflexivity|].
  rewrite !Z.gtb_ltb. cbn [ledger logs calls].
  destruct (balance s <? amount) eqn:Hbal; [reflexivity|].
  rewrite (call_value_to_run recipient amount s [] []), Hbal.
  fold s1. fold inner. fold frame.
  destruct (status inner) as [e|[|]]; reflexivity.
Qed.

Lemma transferOwnership_run s sender newOwner :
  run (transferOwnership sender newOwner) s =
    if negb (sender =? _owner s) then
      {| status := inl NotOwner; post := s; emitted := []; trace := [] |}
    else if newOwner =? 0 then
      {| status := inl InvalidOwner; post := s; emitted := []; trace := [] |}
    else
      {| status := inr (); post := set_owner newOwner s;
         emitted := [OwnershipTransferred (_owner s) newOwner]; trace := [] |}.
Proof.
  exec. destruct (sender =? _owner s); simpl; [|reflexivity].
  destruct (newOwner =? 0); reflexivity.
Qed.

End Transfers.

(** [makeGuess] past its guards, for an externally owned caller. *)
Lemma makeGuess_plain_settle s sender sg rg :
  in_range sg rg →
  active (session_of s sender) = true →
  let sm := suit (session_of s sender) =? sg in
  let rm := rank (session_of s sender) =? rg in
  let reward := guess_reward sm rm in
  let s1 := cleared sender s in
  let s2 := set_balance (balance s - reward) s1 in
  let frame := {| call_to := sender; call_value := reward; call_ledger := s2 |} in
  run (makeGuess plain_account sender sg rg) s =
    if 0 <? reward then
      if balance s <? reward then
        {| status := inl InsufficientBankroll; post := s; emitted := []; trace := [] |}
      else
        {| status := inr (); post := s2;
           emitted := [GuessEvaluated sender sm rm reward]; trace := [frame] |}
    else
      {| status := inr (); post := s1;
         emitted := [GuessEvaluated sender sm rm reward]; trace := [] |}.
Proof.
  intros Hr Ha. cbv zeta.
  rewrite (makeGuess_settle plain_account s sender sg rg Hr Ha).
  rewrite plain_account_run. reflexivity.
Qed.

Section LedgerProperties.

Variable keccak256_packed : Z → Z → address → Z → Z.
Variable FHE_asEuint8 : Z → euint8.
Variable FHE_allowThis : euint8 → euint8.
Variable FHE_allow : euint8 → address → euint8.
Variable FHE_toBytes32 : euint8 → bytes32.
Variable code : M bool.

Local Abbreviation started' :=
  (started keccak256_packed FHE_asEuint8 FHE_allowThis FHE_allow).
Local Abbreviation start_handles' :=
  (start_handles keccak256_packed FHE_asEuint8 FHE_allowThis FHE_allow FHE_toBytes32).
Local Abbreviation perform' :=
  (perform keccak256_packed FHE_asEuint8 FHE_allowThis FHE_allow FHE_toBytes32).

(** C1. With an active session and a guess in range, the reward follows
    the three tiers: both components matched pays [FULL_REWARD], the rank
    alone [RANK_REWARD], the suit alone [SUIT_REWARD], neither pays
    nothing; the four cases exclude one another and cover every guess.
    A reward of zero is settled without a transfer.  A positive reward is
    sent to the caller, whose code runs on the ledger with the session
    cleared and the reward gone; the call succeeds exactly when the
    balance covers the reward and that code accepts it.  A successful call
    ends by emitting [GuessEvaluated] with the two match flags and the
    reward, after the events of whatever the caller's code did, and leaves
    the ledger as that code left it; a failed one leaves no trace on the
    ledger.  For an externally owned caller the event is the only one and
    the balance is lower by exactly the reward. *)
Theorem makeGuess_reward_policy blk callee s sender sg rg :
  in_range sg rg →
  active (session_of s sender) = true →
  let sm := suit (session_of s sender) =? sg in
  let rm := rank (session_of s sender) =? rg in
  let reward :=
    match sm, rm with
    | true, true => FULL_REWARD
    | false, true => RANK_REWARD
    | true, false => SUIT_REWARD
    | false, false => 0
    end in
  let debited := set_balance (balance s - reward) (cleared sender s) in
  let frame := {| call_to := sender; call_value := reward; call_ledger := debited |} in
  let inner := run (perform' blk callee) debited in
  let r := run (makeGuess (perform' blk callee) sender sg rg) s in
  (succeeded r = true ↔
     reward = 0 ∨ (reward ≤ balance s ∧ status inner = inr true)) ∧
  (succeeded r = true →
     last (emitted r) = Some (GuessEvaluated sender sm rm reward) ∧
     if 0 <? reward
     then trace r = frame :: trace inner ∧
          emitted r = emitted inner ++ [GuessEvaluated sender sm rm reward] ∧
          post r = post inner
     else trace r = [] ∧
          emitted r = [GuessEvaluated sender sm rm reward] ∧
          post r = cleared sender s) ∧
  (succeeded r = false → post r = s ∧ emitted r = []) ∧
  (callee = Done → succeeded r = true →
     emitted r = [GuessEvaluated sender sm rm reward] ∧
     balance (post r) = balance s - reward ∧
     trace r = if 0 <? reward then [frame] else []).
Proof.
  intros Hr Ha sm rm reward debited frame inner r.
  assert (Hrew : reward = guess_reward sm rm)
    by (unfold reward; rewrite guess_reward_cases; reflexivity).
  assert (Hnn : 0 ≤ reward) by (unfold reward; destruct sm, rm; vm_compute; discriminate).
  assert (Hrun := makeGuess_settle (perform' blk callee) s sender sg rg Hr Ha).
  cbv zeta in Hrun. fold sm rm in Hrun. rewrite <- Hrew in Hrun.
  fold debited in Hrun. fold inner frame in Hrun. fold r in Hrun.
  assert (H2 : succeeded r = true →
     last (emitted r) = Some (GuessEvaluated sender sm rm reward) ∧
     if 0 <? reward
     then trace r = frame :: trace inner ∧
          emitted r = emitted inner ++ [GuessEvaluated sender sm rm reward] ∧
          post r = post inner
     else trace r = [] ∧
          emitted r = [GuessEvaluated sender sm rm reward] ∧
          post r = cleared sender s).
  { rewrite Hrun. destruct (0 <? reward).
    - destruct (balance s <? reward); [discriminate|].
      destruct (status inner) as [e|[|]]; try discriminate.
      intros _. cbn [emitted trace post]. rewrite last_snoc. auto.
    - intros _. cbn [emitted trace post]. auto. }
  split; [|split; [exact H2|split]].
  - rewrite Hrun.
    destruct (Z.ltb_spec 0 reward) as [Hpos|Hzero].
    + destruct (Z.ltb_spec (balance s) reward) as [Hlt|Hge].
      * unfold succeeded; simpl. split; [discriminate|].
        intros [H0|[Hle _]]; lia.
      * destruct (status inner) as [e|[|]]; unfold succeeded; simpl; split.
        -- discriminate.
        -- intros [H0|[_ Hf]]; [lia|discriminate].
        -- intros _. right. split; [lia|reflexivity].
        -- reflexivity.
        -- discriminate.
        -- intros [H0|[_ Hf]]; [lia|discriminate].
    + unfold succeeded; simpl. split; [|reflexivity]. intros _. left. lia.
  - rewrite Hrun. destruct (0 <? reward).
    + destruct (balance s <? reward); [auto|].
      destruct (status inner) as [e|[|]]; try discriminate; auto.
    + discriminate.
  - intros -> Hok. destruct (H2 Hok) as [_ H]. clear H2 Hrun.
    destruct (0 <? reward) eqn:Hpos.
    + destruct H as (Ht & He & Hp). rewrite Ht, He, Hp. subst inner.
      rewrite (perform_Done keccak256_packed FHE_asEuint8 FHE_allowThis FHE_allow
                 FHE_toBytes32 blk), plain_account_run.
      cbn [emitted trace post]. auto.
    + destruct H as (Ht & He & Hp). rewrite Ht, He, Hp.
      apply Z.ltb_ge in Hpos. change (balance (cleared sender s)) with (balance s).
      repeat split; try reflexivity. lia.
Qed.


(** C5. A guess outside [1,4] x [1,13] reverts with [InvalidGuess],
    whether or not the caller has a session; a guess in range from a
    caller without an active session reverts with [NoActiveGame].  Either
    way the ledger is left as it was, nothing is emitted and no call is
    made. *)
Theorem makeGuess_guards s sender sg rg :
  (¬ in_range sg rg →
     run (makeGuess code sender sg rg) s =
       {| status := inl InvalidGuess; post := s; emitted := []; trace := [] |}) ∧
  (in_range sg rg → active (session_of s sender) = false →
     run (makeGuess code sender sg rg) s =
       {| status := inl NoActiveGame; post := s; emitted := []; trace := [] |}).
Proof.
  split.
  - apply makeGuess_out_of_range.
  - apply makeGuess_no_session.
Qed.

(** C9. With an active session and a guess in range that misses both the
    suit and the rank, [makeGuess] succeeds whatever the balance is (zero
    included): it makes no external call, removes the caller's session,
    leaves the balance, the owner, the nonce and every other session as
    they were, and emits [GuessEvaluated] with both flags false and
    reward 0. *)
Theorem makeGuess_no_match s sender sg rg :
  in_range sg rg →
  active (session_of s sender) = true →
  suit (session_of s sender) ≠ sg →
  rank (session_of s sender) ≠ rg →
  let r := run (makeGuess code sender sg rg) s in
  status r = inr () ∧
  trace r = [] ∧
  emitted r = [GuessEvaluated sender false false 0] ∧
  games (post r) = delete sender (games s) ∧
  session_of (post r) sender = zeroSession ∧
  balance (post r) = balance s ∧
  _owner (post r) = _owner s ∧
  _nonce (post r) = _nonce s.
Proof.
  intros Hr Ha Hs Hk r. subst r.
  rewrite (makeGuess_settle code s sender sg rg Hr Ha).
  apply Z.eqb_neq in Hs, Hk. rewrite Hs, Hk.
  change (0 <? guess_reward false false) with false.
  cbn [status trace emitted post].
  rewrite cleared_games, cleared_session. repeat split; reflexivity.
Qed.

(** C7. [withdraw] and [transferOwnership] called by anyone but the owner
    revert with [NotOwner] and change nothing.  Called by the owner,
    [withdraw] reverts with [InvalidRecipient] for the zero address, with
    [AmountExceedsBalance] when the amount is above the balance, and
    otherwise sends the amount to the recipient, whose code runs on the
    ledger with the amount gone from the balance: when that code accepts,
    the call succeeds and leaves the ledger as the code left it, and when
    it does not the call reverts with [TransferFailed].  An externally
    owned recipient leaves the balance lower by the amount; a withdrawal
    to the contract's own address succeeds and leaves the ledger as it
    was. *)
Theorem owner_only_operations blk callee s sender recipient amount newOwner :
  (sender ≠ _owner s →
     run (withdraw (perform' blk callee) sender recipient amount) s =
       {| status := inl NotOwner; post := s; emitted := []; trace := [] |} ∧
     run (transferOwnership sender newOwner) s =
       {| status := inl NotOwner; post := s; emitted := []; trace := [] |}) ∧
  (sender = _owner s →
     let r := run (withdraw (perform' blk callee) sender recipient amount) s in
     let debited := set_balance (balance s - amount) s in
     let frame :=
       {| call_to := recipient; call_value := amount; call_ledger := debited |} in
     let inner := run (perform' blk callee) debited in
     (recipient = 0 →
        r = {| status := inl InvalidRecipient; post := s; emitted := []; trace := [] |}) ∧
     (recipient ≠ 0 → amount > balance s →
        r = {| status := inl AmountExceedsBalance; post := s; emitted := [];
               trace := [] |}) ∧
     (recipient ≠ 0 → amount ≤ balance s → status inner = inr true →
        r = {| status := inr (); post := post inner; emitted := emitted inner;
               trace := frame :: trace inner |}) ∧
     (recipient ≠ 0 → amount ≤ balance s → status inner ≠ inr true →
        r = {| status := inl TransferFailed; post := s; emitted := [];
               trace := frame :: trace inner |}) ∧
     (recipient ≠ 0 → amount ≤ balance s → callee = Done →
        r = {| status := inr (); post := debited; emitted := []; trace := [frame] |}) ∧
     (recipient ≠ 0 → amount ≤ balance s → callee = Refuse →
        r = {| status := inl TransferFailed; post := s; emitted := [];
               trace := [frame] |}) ∧
     (recipient ≠ 0 → 0 ≤ amount ≤ balance s →
      callee = ThenDeposit (Z.to_N amount) Done →
        status r = inr () ∧ post r = s ∧ emitted r = [])).
Proof.
  split.
  - intros Hne. rewrite withdraw_run, transferOwnership_run.
    apply Z.eqb_neq in Hne. rewrite Hne. simpl. split; reflexivity.
  - intros Heq r debited frame inner.
    assert (Hrun := withdraw_run (perform' blk callee) s sender recipient amount).
    cbv zeta in Hrun. fold debited in Hrun. fold inner frame in Hrun. fold r in Hrun.
    apply Z.eqb_eq in Heq. rewrite Heq in Hrun. cbn [negb] in Hrun.
    assert (Hpast : recipient ≠ 0 → amount ≤ balance s →
              r = match status inner with
                  | inr true =>
                      {| status := inr (); post := post inner; emitted := emitted inner;
                         trace := frame :: trace inner |}
                  | _ =>
                      {| status := inl TransferFailed; post := s; emitted := [];
                         trace := frame :: trace inner |}
                  end).
    { intros Hz Hle. apply Z.eqb_neq in Hz. rewrite Hz in Hrun.
      rewrite Z.gtb_ltb in Hrun. apply Z.ltb_ge in Hle. rewrite Hle in Hrun.
      exact Hrun. }
    split; [|split; [|split; [|split; [|split; [|split]]]]].
    + intros ->. exact Hrun.
    + intros Hz Hgt. apply Z.eqb_neq in Hz. rewrite Hz in Hrun.
      apply Z.gtb_gt in Hgt. rewrite Hgt in Hrun. exact Hrun.
    + intros Hz Hle Hacc. rewrite (Hpast Hz Hle), Hacc. reflexivity.
    + intros Hz Hle Hacc. rewrite (Hpast Hz Hle).
      destruct (status inner) as [e|[|]]; [reflexivity|congruence|reflexivity].
    + intros Hz Hle Hc. rewrite (Hpast Hz Hle). subst inner. rewrite Hc.
      reflexivity.
    + intros Hz Hle Hc. rewrite (Hpast Hz Hle). subst inner. rewrite Hc.
      reflexivity.
    + intros Hz [H0 Hle] Hc. rewrite (Hpast Hz Hle). subst inner. rewrite Hc.
      rewrite perform_deposit_back_run. cbn [status post emitted trace].
      rewrite Z2N.id by exact H0. subst debited. unfold set_balance.
      cbn [games _owner _nonce balance].
      replace (balance s - amount + amount) with (balance s) by lia.
      destruct s; auto.
Qed.

(** C10 (as amended). [withdraw] writes no storage of its own: the first
    transfer of every execution is its own, to the recipient, with the
    amount, and the ledger the recipient's code is entered on has every
    session, the owner and the nonce as before and the balance lower by
    the amount.  A successful [withdraw] leaves the ledger as that code
    left it: for an externally owned recipient the session of every player
    (active flag, suit, rank and the two handles), the owner and the nonce
    are as before and the balance is lower by the amount.  Nothing but the
    guards constrains it: the owner can withdraw any amount up to the
    whole balance to any such recipient, whatever sessions are active and
    however little is left to pay rewards. *)
Theorem withdraw_frame blk callee s sender recipient amount :
  let r := run (withdraw (perform' blk callee) sender recipient amount) s in
  (∀ frame rest, trace r = frame :: rest →
     call_to frame = recipient ∧
     call_value frame = amount ∧
     games (call_ledger frame) = games s ∧
     (∀ player, session_of (call_ledger frame) player = session_of s player) ∧
     _owner (call_ledger frame) = _owner s ∧
     _nonce (call_ledger frame) = _nonce s ∧
     balance (call_ledger frame) = balance s - amount ∧
     rest = trace (run (perform' blk callee) (call_ledger frame)) ∧
     (succeeded r = true →
        post r = post (run (perform' blk callee) (call_ledger frame)))) ∧
  (succeeded r = true → trace r ≠ []) ∧
  (succeeded r = true → callee = Done →
     games (post r) = games s ∧
     (∀ player, session_of (post r) player = session_of s player) ∧
     _owner (post r) = _owner s ∧
     _nonce (post r) = _nonce s ∧
     balance (post r) = balance s - amount) ∧
  (sender = _owner s → recipient ≠ 0 → amount ≤ balance s → callee = Done →
     succeeded r = true).
Proof.
  intros r. subst r. rewrite withdraw_run.
  set (s1 := set_balance (balance s - amount) s).
  split; [|split; [|split]].
  - destruct (negb _); [discriminate|].
    destruct (recipient =? 0); [discriminate|].
    destruct (amount >? balance s); [discriminate|].
    assert (Hframe : ∀ frame rest,
              {| call_to := recipient; call_value := amount; call_ledger := s1 |}
                :: trace (run (perform' blk callee) s1) = frame :: rest →
              call_to frame = recipient ∧
              call_value frame = amount ∧
              games (call_ledger frame) = games s ∧
              (∀ player, session_of (call_ledger frame) player = session_of s player) ∧
              _owner (call_ledger frame) = _owner s ∧
              _nonce (call_ledger frame) = _nonce s ∧
              balance (call_ledger frame) = balance s - amount ∧
              rest = trace (run (perform' blk callee) (call_ledger frame))).
    { intros frame rest Heq. injection Heq as <- <-. cbn. auto 10. }
    destruct (status (run (perform' blk callee) s1)) as [e|[|]]; cbn [trace post];
      intros frame rest Heq;
      destruct (Hframe frame rest Heq) as (?&?&?&?&?&?&?&?);
      injection Heq as <- _; cbn [call_ledger];
      repeat (split; [assumption|]); try discriminate; auto.
  - destruct (negb _); [discriminate|].
    destruct (recipient =? 0); [discriminate|].
    destruct (amount >? balance s); [discriminate|].
    destruct (status (run (perform' blk callee) s1)) as [e|[|]];
      discriminate.
  - intros Hok ->. revert Hok.
    destruct (negb _); [discriminate|].
    destruct (recipient =? 0); [discriminate|].
    destruct (amount >? balance s); [discriminate|].
    rewrite (perform_Done keccak256_packed FHE_asEuint8 FHE_allowThis FHE_allow
               FHE_toBytes32 blk), plain_account_run.
    intros _. cbn. repeat split; reflexivity.
  - intros Heq Hz Hle ->.
    apply Z.eqb_eq in Heq. apply Z.eqb_neq in Hz. rewrite Heq, Hz. simpl.
    rewrite Z.gtb_ltb. apply Z.ltb_ge in Hle. rewrite Hle. reflexivity.
Qed.

Lemma startGame_run blk s sender v :
  run_payable v
    (startGame keccak256_packed FHE_asEuint8 FHE_allowThis FHE_allow FHE_toBytes32
       blk sender v) s =
    if negb (v =? GAME_FEE) then
      {| status := inl InvalidFee; post := s; emitted := []; trace := [] |}
    else if active (session_of s sender) then
      {| status := inl ActiveGameExists; post := s; emitted := []; trace := [] |}
    else if balance s + v <? FULL_REWARD then
      {| status := inl InsufficientBankroll; post := s; emitted := []; trace := [] |}
    else
      {| status := inr (start_handles' blk sender s);
         post := started' blk sender s;
         emitted := [GameStarted sender (start_handles' blk sender s).1
                       (start_handles' blk sender s).2];
         trace := [] |}.
Proof.
  unfold run_payable, startGame, _drawCard. exec.
  destruct (Z.eqb_spec v GAME_FEE) as [->|Hv]; simpl; [|reflexivity].
  unfold session_of at 1. simpl. fold (session_of s sender).
  destruct (active (session_of s sender)); simpl; [reflexivity|].
  destruct (balance s + GAME_FEE <? FULL_REWARD); simpl; reflexivity.
Qed.

Lemma suit_of_seed_range seed : 1 ≤ suit_of_seed seed ≤ 4.
Proof.
  unfold suit_of_seed, uint8.
  pose proof (Z.mod_pos_bound seed 4 ltac:(lia)).
  rewrite Z.mod_small; lia.
Qed.

Lemma rank_of_seed_range seed : 1 ≤ rank_of_seed seed ≤ 13.
Proof.
  unfold rank_of_seed, uint8.
  pose proof (Z.mod_pos_bound (Z.shiftr seed 16) 13 ltac:(lia)).
  rewrite Z.mod_small; lia.
Qed.

(** C2 (as amended). With the right fee and no active session for the
    caller, [startGame] reverts with [InsufficientBankroll] exactly when
    the balance with the fee just paid is below [FULL_REWARD], that is
    when the balance before the call is below [FULL_REWARD - GAME_FEE];
    otherwise it succeeds, keeps the fee and leaves the caller with an
    active session.  In particular it succeeds whenever the balance before
    the call is at least [FULL_REWARD]. *)
Theorem startGame_bankroll blk s sender :
  active (session_of s sender) = false →
  let r :=
    run_payable GAME_FEE
      (startGame keccak256_packed FHE_asEuint8 FHE_allowThis FHE_allow
         FHE_toBytes32 blk sender GAME_FEE) s in
  (balance s + GAME_FEE < FULL_REWARD →
     r = {| status := inl InsufficientBankroll; post := s; emitted := [];
            trace := [] |}) ∧
  (FULL_REWARD ≤ balance s + GAME_FEE →
     succeeded r = true ∧
     active (session_of (post r) sender) = true ∧
     balance (post r) = balance s + GAME_FEE) ∧
  (FULL_REWARD ≤ balance s → succeeded r = true).
Proof.
  intros Ha r. subst r. rewrite startGame_run, Ha.
  change (negb (GAME_FEE =? GAME_FEE)) with false. cbv iota.
  destruct (Z.ltb_spec (balance s + GAME_FEE) FULL_REWARD) as [Hlt|Hge].
  - split; [reflexivity|]. split; intros; [lia|].
    unfold GAME_FEE, FULL_REWARD in *; lia.
  - split; [intros; lia|]. split; [|reflexivity].
    intros _. unfold succeeded, session_of, started. simpl.
    rewrite lookup_insert_eq. auto.
Qed.

End LedgerProperties.

(** ** What every call preserves

    A property of the ledger that the five elementary changes preserve
    (a deposit, a new session, the clearing of a session, a payment within
    the balance, a new non-zero owner) is preserved by every call, however
    the accounts it pays call back. *)

Section Preservation.

Variable keccak256_packed : Z → Z → address → Z → Z.
Variable FHE_asEuint8 : Z → euint8.
Variable FHE_allowThis : euint8 → euint8.
Variable FHE_allow : euint8 → address → euint8.
Variable FHE_toBytes32 : euint8 → bytes32.

Local Abbreviation started' :=
  (started keccak256_packed FHE_asEuint8 FHE_allowThis FHE_allow).
Local Abbreviation startGame' :=
  (startGame keccak256_packed FHE_asEuint8 FHE_allowThis FHE_allow FHE_toBytes32).
Local Abbreviation perform' :=
  (perform keccak256_packed FHE_asEuint8 FHE_allowThis FHE_allow FHE_toBytes32).
Local Abbreviation step' :=
  (step keccak256_packed FHE_asEuint8 FHE_allowThis FHE_allow FHE_toBytes32).

Variable P : Ledger → Prop.

Hypothesis P_deposit : ∀ s v, 0 ≤ v → P s → P (set_balance (balance s + v) s).
Hypothesis P_started : ∀ blk s sender,
  active (session_of s sender) = false → P s → P (started' blk sender s).
Hypothesis P_cleared : ∀ s sender, P s → P (cleared sender s).
Hypothesis P_paid : ∀ s v, 0 ≤ v ≤ balance s → P s → P (set_balance (balance s - v) s).
Hypothesis P_owner : ∀ s o, o ≠ 0 → P s → P (set_owner o s).

Lemma run_accepted_post (code : M bool) s :
  (∀ w, P (ledger w) → P (ledger (code w).2)) →
  P s → status (run code s) = inr true → P (post (run code s)).
Proof.
  intros Hcode Hs. unfold run.
  specialize (Hcode {| ledger := s; logs := []; calls := [] |} Hs).
  destruct (code _) as [[e|b] w']; [discriminate|]. intros _. exact Hcode.
Qed.

Lemma startGame_preserves blk s sender v :
  P s → P (post (run_payable v (startGame' blk sender v) s)).
Proof.
  intros Hs. rewrite startGame_run.
  destruct (negb (v =? GAME_FEE)); [exact Hs|].
  destruct (active (session_of s sender)) eqn:Ha; [exact Hs|].
  destruct (balance s + v <? FULL_REWARD); [exact Hs|].
  cbn [post]. apply P_started; assumption.
Qed.

Lemma makeGuess_preserves (code : M bool) s sender sg rg :
  (∀ w, P (ledger w) → P (ledger (code w).2)) →
  P s → P (post (run (makeGuess code sender sg rg) s)).
Proof.
  intros Hcode Hs.
  destruct (decide (in_range sg rg)) as [Hr|Hr];
    [|rewrite (makeGuess_out_of_range code _ _ _ _ Hr); exact Hs].
  destruct (active (session_of s sender)) eqn:Hact;
    [|rewrite (makeGuess_no_session code _ _ _ _ Hr Hact); exact Hs].
  rewrite (makeGuess_settle code s sender sg rg Hr Hact).
  set (reward := guess_reward _ _).
  destruct (Z.ltb_spec 0 reward) as [Hpos|Hzero].
  - destruct (Z.ltb_spec (balance s) reward) as [Hlt|Hge]; [exact Hs|].
    destruct (status (run code _)) as [e|[|]] eqn:Hst; cbn [post]; try exact Hs.
    apply (run_accepted_post code); [exact Hcode| |exact Hst].
    apply (P_paid (cleared sender s) reward).
    + change (balance (cleared sender s)) with (balance s). lia.
    + apply P_cleared, Hs.
  - cbn [post]. apply P_cleared, Hs.
Qed.

Lemma withdraw_preserves (code : M bool) s sender recipient amount :
  0 ≤ amount →
  (∀ w, P (ledger w) → P (ledger (code w).2)) →
  P s → P (post (run (withdraw code sender recipient amount) s)).
Proof.
  intros Ha Hcode Hs. rewrite withdraw_run.
  destruct (negb _); [exact Hs|].
  destruct (recipient =? 0); [exact Hs|].
  rewrite Z.gtb_ltb.
  destruct (Z.ltb_spec (balance s) amount) as [Hlt|Hge]; [exact Hs|].
  destruct (status (run code _)) as [e|[|]] eqn:Hst; cbn [post]; try exact Hs.
  apply (run_accepted_post code); [exact Hcode| |exact Hst].
  apply P_paid; [lia|exact Hs].
Qed.

Lemma transferOwnership_preserves s sender newOwner :
  P s → P (post (run (transferOwnership sender newOwner) s)).
Proof.
  intros Hs. rewrite transferOwnership_run.
  destruct (negb _); [exact Hs|].
  destruct (Z.eqb_spec newOwner 0) as [Hz|Hz]; [exact Hs|].
  cbn [post]. apply P_owner; assumption.
Qed.

Lemma perform_preserves blk script :
  ∀ w, P (ledger w) → P (ledger (perform' blk script w).2).
Proof.
  induction script as [| |sender v rest IH|sender sg rg inner IHi rest IH
                      |sender recipient amount inner IHi rest IH
                      |sender newOwner rest IH|v rest IH];
    intros w Hw; cbn [perform]; unfold mbind, M_bind, nested;
    try exact Hw; apply IH; cbn [ledger].
  - apply startGame_preserves, Hw.
  - apply makeGuess_preserves; [exact IHi|exact Hw].
  - apply withdraw_preserves; [lia|exact IHi|exact Hw].
  - apply transferOwnership_preserves, Hw.
  - change (post (run_payable (Z.of_N v) receive (ledger w)))
      with (set_balance (balance (ledger w) + Z.of_N v) (ledger w)).
    apply P_deposit; [lia|exact Hw].
Qed.

Lemma step_preserves s s' : step' s s' → P s → P s'.
Proof.
  intros Hstep Hs.
  destruct Hstep as [s v Hv|s blk sender v Hv|s blk callee sender sg rg
                    |s blk callee sender recipient amount Ha|s sender newOwner].
  - apply P_deposit; assumption.
  - apply startGame_preserves, Hs.
  - apply makeGuess_preserves; [apply perform_preserves|exact Hs].
  - apply withdraw_preserves; [exact Ha|apply perform_preserves|exact Hs].
  - apply transferOwnership_preserves, Hs.
Qed.

End Preservation.

Section Invariants.

Variable keccak256_packed : Z → Z → address → Z → Z.
Variable FHE_asEuint8 : Z → euint8.
Variable FHE_allowThis : euint8 → euint8.
Variable FHE_allow : euint8 → address → euint8.
Variable FHE_toBytes32 : euint8 → bytes32.

Local Abbreviation step' :=
  (step keccak256_packed FHE_asEuint8 FHE_allowThis FHE_allow FHE_toBytes32).
Local Abbreviation reachable' :=
  (reachable keccak256_packed FHE_asEuint8 FHE_allowThis FHE_allow FHE_toBytes32).

Lemma ledger_ok_deployed deployer funds : 0 ≤ funds → ledger_ok (deployed deployer funds).
Proof.
  intros Hf. unfold ledger_ok, deployed. simpl. repeat split; try lia.
  all: rewrite lookup_empty in H; discriminate.
Qed.

Lemma ledger_ok_cleared sender s b :
  ledger_ok s → 0 ≤ b → ledger_ok (set_balance b (cleared sender s)).
Proof.
  intros (Hg & Hb & Hn) Hb'. unfold ledger_ok. simpl.
  rewrite delete_insert_eq. repeat split; try lia.
  all: apply lookup_delete_Some in H as [_ H]; apply Hg in H; tauto.
Qed.

Lemma ledger_ok_paid s v : 0 ≤ v ≤ balance s → ledger_ok s → ledger_ok (set_balance (balance s - v) s).
Proof.
  intros Hv (Hg & Hb & Hn). unfold ledger_ok; simpl. split; [exact Hg|lia].
Qed.

Lemma ledger_ok_deposit s v : 0 ≤ v → ledger_ok s → ledger_ok (set_balance (balance s + v) s).
Proof.
  intros Hv (Hg & Hb & Hn). unfold ledger_ok; simpl. split; [exact Hg|lia].
Qed.

Lemma ledger_ok_started blk s sender :
  ledger_ok s →
  ledger_ok (started keccak256_packed FHE_asEuint8 FHE_allowThis FHE_allow blk sender s).
Proof.
  intros (Hg & Hb & Hn). unfold ledger_ok, started; simpl.
  assert (0 ≤ uint256 (_nonce s + 1) < 2 ^ 256)
    by (unfold uint256; apply Z.mod_pos_bound; lia).
  split; [|unfold GAME_FEE; lia].
  intros player g Hlook. apply lookup_insert_Some in Hlook as [[_ <-]|[_ Hlook]].
  - simpl. split; [reflexivity|].
    split; [apply suit_of_seed_range | apply rank_of_seed_range].
  - apply Hg in Hlook. tauto.
Qed.

Lemma ledger_ok_step s s' : ledger_ok s → step' s s' → ledger_ok s'.
Proof.
  intros Hok Hstep. revert Hok.
  apply (step_preserves keccak256_packed FHE_asEuint8 FHE_allowThis FHE_allow
           FHE_toBytes32 ledger_ok) with (s := s); [| | | | |exact Hstep].
  - intros s0 v Hv. apply ledger_ok_deposit, Hv.
  - intros blk s0 sender _. apply ledger_ok_started.
  - intros s0 sender Hs0.
    replace (cleared sender s0) with (set_balance (balance s0) (cleared sender s0))
      by reflexivity.
    apply ledger_ok_cleared; [exact Hs0|apply Hs0].
  - intros s0 v Hv. apply ledger_ok_paid, Hv.
  - intros s0 o _ Hs0. exact Hs0.
Qed.

Lemma reachable_ledger_ok s : reachable' s → ledger_ok s.
Proof.
  induction 1 as [deployer funds Hf|s s' _ IH Hstep].
  - apply ledger_ok_deployed. exact Hf.
  - eapply ledger_ok_step; eassumption.
Qed.

Lemma active_sessions_elem s player g :
  g ∈ active_sessions s player ↔ games s !! player = Some g ∧ active g = true.
Proof.
  unfold active_sessions. rewrite list_elem_of_fmap. split.
  - intros ([k g'] & -> & Hin). apply list_elem_of_filter in Hin as [[Hk Ha] Hin].
    simpl in *. subst k. apply elem_of_map_to_list in Hin. auto.
  - intros [Hl Ha]. exists (player, g). split; [reflexivity|].
    apply list_elem_of_filter. split; [split; [reflexivity|exact Ha]|].
    apply elem_of_map_to_list. exact Hl.
Qed.

Lemma keyed_filter_length {A} (Q : A → Prop) (Hdec : ∀ a, Decision (Q a))
    (l : list (Z * A)) (k : Z) :
  NoDup (l.*1) →
  (length (filter (λ kv, kv.1 = k ∧ Q kv.2) l) ≤ 1)%nat.
Proof.
  induction l as [|[k' a] l IH]; intros Hnd; [simpl; lia|].
  simpl in Hnd. apply NoDup_cons in Hnd as [Hnotin Hnd].
  rewrite filter_cons. destruct (decide _) as [[Hk _]|_]; [|auto].
  simpl in Hk. subst k'.
  assert (filter (λ kv : Z * A, kv.1 = k ∧ Q kv.2) l = []) as ->; [|simpl; lia].
  destruct (filter _ l) as [|[k2 a2] rest] eqn:Hf; [reflexivity|exfalso].
  assert ((k2, a2) ∈ filter (λ kv : Z * A, kv.1 = k ∧ Q kv.2) l) as Hin
    by (rewrite Hf; left).
  apply list_elem_of_filter in Hin as [[Hk2 _] Hin]. simpl in Hk2. subst k2.
  apply Hnotin. apply list_elem_of_fmap. exists (k, a2). auto.
Qed.

Lemma active_sessions_length s player : (length (active_sessions s player) ≤ 1)%nat.
Proof.
  unfold active_sessions. rewrite length_fmap.
  apply (keyed_filter_length (λ g, active g = true)
           (λ g, decide_rel (=) (active g) true)).
  apply NoDup_fst_map_to_list.
Qed.

(** C3 (as amended). In every reachable state a player has at most one
    active session: at most one stored session is active, it is the one
    [games[player]] reads, and its card is in range.  A caller whose
    session is active cannot start another one: [startGame] reverts and
    leaves the ledger unchanged, with [ActiveGameExists] when the fee is
    [GAME_FEE] and with [InvalidFee], which is checked first, for any
    other value. *)
Theorem one_active_session s player :
  reachable' s →
  (length (active_sessions s player) ≤ 1)%nat ∧
  (∀ g, g ∈ active_sessions s player →
     g = session_of s player ∧ 1 ≤ suit g ≤ 4 ∧ 1 ≤ rank g ≤ 13) ∧
  (active (session_of s player) = true →
   ∀ blk v,
     run_payable v
       (startGame keccak256_packed FHE_asEuint8 FHE_allowThis FHE_allow
          FHE_toBytes32 blk player v) s =
       {| status := inl (if v =? GAME_FEE then ActiveGameExists else InvalidFee);
          post := s; emitted := []; trace := [] |}).
Proof.
  intros Hreach. apply reachable_ledger_ok in Hreach as (Hg & _ & _).
  split; [apply active_sessions_length|]. split.
  - intros g Hin. apply active_sessions_elem in Hin as [Hl Ha].
    unfold session_of. rewrite Hl. simpl. apply Hg in Hl. tauto.
  - intros Ha blk v. rewrite startGame_run, Ha.
    destruct (v =? GAME_FEE); reflexivity.
Qed.

End Invariants.

(** ** The drawn card *)

Lemma count_below_ext p q n :
  (∀ x, 0 ≤ x < Z.of_nat n → p x = q x) →
  count_below p n = count_below q n.
Proof.
  induction n as [|n IH]; intros H; [reflexivity|].
  cbn [count_below]. rewrite IH, (H (Z.of_nat n)); [reflexivity|lia|].
  intros x Hx. apply H. lia.
Qed.

Lemma count_below_add p a b :
  count_below p (a + b) =
    count_below p a + count_below (λ x, p (x + Z.of_nat a)) b.
Proof.
  induction b as [|b IH].
  - rewrite Nat.add_0_r. cbn [count_below]. lia.
  - rewrite Nat.add_succ_r. cbn [count_below]. rewrite IH.
    replace (Z.of_nat b + Z.of_nat a) with (Z.of_nat (a + b)) by lia. lia.
Qed.

Lemma count_below_const p n c :
  (∀ x, 0 ≤ x < Z.of_nat n → p x = c) →
  count_below p n = if c then Z.of_nat n else 0.
Proof.
  induction n as [|n IH]; intros H; [destruct c; reflexivity|].
  cbn [count_below]. rewrite IH, (H (Z.of_nat n)) by (try intros x Hx; try apply H; lia).
  destruct c; lia.
Qed.

(** A predicate of period [m] holds equally often in each period. *)
Lemma count_below_periodic p m k :
  (∀ x, 0 ≤ x → p (x + Z.of_nat m) = p x) →
  count_below p (k * m) = Z.of_nat k * count_below p m.
Proof.
  intros Hper. induction k as [|k IH]; [reflexivity|].
  replace (S k * m)%nat with (k * m + m)%nat by lia.
  rewrite count_below_add, IH.
  rewrite (count_below_ext (λ x, p (x + Z.of_nat (k * m))) p); [lia|].
  intros x Hx. clear IH. induction k as [|k IHk].
  - f_equal. lia.
  - rewrite <- IHk. replace (x + Z.of_nat (S k * m)) with (x + Z.of_nat (k * m) + Z.of_nat m) by lia.
    apply Hper. lia.
Qed.

(** A predicate of [x / b] holds on whole blocks of [b] numbers. *)
Lemma count_below_blocks q b n :
  (0 < b)%nat →
  count_below (λ x, q (x / Z.of_nat b)) (n * b) = Z.of_nat b * count_below q n.
Proof.
  intros Hb. induction n as [|n IH]; [cbn [Nat.mul count_below]; lia|].
  replace (S n * b)%nat with (n * b + b)%nat by lia.
  rewrite count_below_add, IH. cbn [count_below].
  rewrite (count_below_const _ b (q (Z.of_nat n))).
  - destruct (q (Z.of_nat n)); lia.
  - intros x Hx. f_equal.
    rewrite Nat2Z.inj_mul, Z.div_add by lia. rewrite Z.div_small by lia. lia.
Qed.

Lemma suit_of_seed_mod seed : suit_of_seed seed = seed mod 4 + 1.
Proof.
  unfold suit_of_seed, uint8.
  pose proof (Z.mod_pos_bound seed 4 ltac:(lia)). rewrite Z.mod_small; lia.
Qed.

Lemma rank_of_seed_mod seed : rank_of_seed seed = (seed / 2 ^ 16) mod 13 + 1.
Proof.
  unfold rank_of_seed, uint8. rewrite Z.shiftr_div_pow2 by lia.
  pose proof (Z.mod_pos_bound (seed / 2 ^ 16) 13 ltac:(lia)). rewrite Z.mod_small; lia.
Qed.

Lemma count_suit_general (K v : Z) :
  0 ≤ K → 1 ≤ v ≤ 4 →
  count_below (λ seed, suit_of_seed seed =? v) (Z.to_nat (K * 4)) = K.
Proof.
  intros HK Hv.
  replace (Z.to_nat (K * 4)) with (Z.to_nat K * 4)%nat by lia.
  rewrite count_below_periodic.
  - rewrite Z2Nat.id by lia.
    assert (v = 1 ∨ v = 2 ∨ v = 3 ∨ v = 4) as [ -> | [ -> | [ -> | -> ] ] ] by lia;
      vm_compute count_below; lia.
  - intros x Hx. rewrite !suit_of_seed_mod.
    change (Z.of_nat 4) with (1 * 4). rewrite Z.mod_add by lia. reflexivity.
Qed.

Lemma count_rank_general (Q B v : Z) :
  0 ≤ Q → 0 < B → 1 ≤ v ≤ 13 →
  count_below (λ seed, (seed / B) mod 13 + 1 =? v) (Z.to_nat ((13 * Q + 1) * B))
    = B * (Q + (if v =? 1 then 1 else 0)).
Proof.
  intros HQ HB Hv.
  replace (Z.to_nat ((13 * Q + 1) * B)) with ((Z.to_nat Q * 13 + 1) * Z.to_nat B)%nat
    by lia.
  rewrite (count_below_ext _ (λ x, (λ t, t mod 13 + 1 =? v) (x / Z.of_nat (Z.to_nat B))))
    by (intros x _; rewrite Z2Nat.id by lia; reflexivity).
  rewrite (count_below_blocks (λ t, t mod 13 + 1 =? v) (Z.to_nat B)
             (Z.to_nat Q * 13 + 1)) by lia.
  rewrite Z2Nat.id by lia. f_equal.
  rewrite count_below_add. cbn [count_below].
  rewrite count_below_periodic.
  - rewrite Z2Nat.id by lia.
    replace (Z.of_nat 0 + Z.of_nat (Z.to_nat Q * 13)) with (Q * 13) by lia.
    rewrite Z.mod_mul by lia.
    assert (v = 1 ∨ v = 2 ∨ v = 3 ∨ v = 4 ∨ v = 5 ∨ v = 6 ∨ v = 7 ∨ v = 8 ∨ v = 9 ∨
            v = 10 ∨ v = 11 ∨ v = 12 ∨ v = 13)
      as [ -> | [ -> | [ -> | [ -> | [ -> | [ -> | [ -> | [ -> | [ -> | [ -> | [ -> | [ -> | -> ] ] ] ] ] ] ] ] ] ] ] ]
      by lia;
      vm_compute count_below; simpl; lia.
  - intros x Hx. change (Z.of_nat 13) with (1 * 13). rewrite Z.mod_add by lia. reflexivity.
Qed.

Lemma seeds_with_suit_count v : 1 ≤ v ≤ 4 → seeds_with_suit v = 2 ^ 254.
Proof.
  intros Hv. unfold seeds_with_suit.
  replace (2 ^ 256) with (2 ^ 254 * 4) by reflexivity.
  apply count_suit_general; [|exact Hv].
  apply Z.leb_le. reflexivity.
Qed.

Lemma seeds_with_rank_count v :
  1 ≤ v ≤ 13 →
  seeds_with_rank v = 2 ^ 16 * (rank_quota + (if v =? 1 then 1 else 0)).
Proof.
  intros Hv. unfold seeds_with_rank.
  replace (2 ^ 256) with ((13 * rank_quota + 1) * 2 ^ 16) by reflexivity.
  rewrite <- (count_rank_general rank_quota (2 ^ 16) v);
    [|apply Z.leb_le; reflexivity|reflexivity|exact Hv].
  apply count_below_ext. intros x _. rewrite rank_of_seed_mod. reflexivity.
Qed.

Section Draw.

Variable keccak256_packed : Z → Z → address → Z → Z.
Variable FHE_asEuint8 : Z → euint8.
Variable FHE_allowThis : euint8 → euint8.
Variable FHE_allow : euint8 → address → euint8.
Variable FHE_toBytes32 : euint8 → bytes32.

Lemma drawCard_run blk player s :
  run (_drawCard keccak256_packed blk player) s =
    {| status :=
         inr (suit_of_seed
                (uint256 (keccak256_packed (prevrandao blk) (timestamp blk) player
                            (_nonce s))),
              rank_of_seed
                (uint256 (keccak256_packed (prevrandao blk) (timestamp blk) player
                            (_nonce s))));
       post := set_nonce (uint256 (_nonce s + 1)) s;
       emitted := []; trace := [] |}.
Proof. reflexivity. Qed.

(** C6 (as amended). The card is a function of the seed
    [keccak256(prevrandao, timestamp, caller, nonce)] alone, and every
    successful [startGame] stores that card and moves the nonce to
    [nonce + 1] modulo [2 ^ 256] (the increment is unchecked; it is
    [nonce + 1] below the last value).  For every seed the suit lies in
    [1,4] and the rank in [1,13].  Over the [2 ^ 256] seeds the suit is
    uniform, each suit being drawn by [2 ^ 254] seeds; the rank is not:
    rank 1 is drawn by [2 ^ 16 * (rank_quota + 1)] seeds and each of the
    ranks 2 to 13 by [2 ^ 16 * rank_quota], since [2 ^ 240] leaves
    remainder 1 modulo 13. *)
Theorem drawCard_distribution blk player s :
  let seed :=
    uint256 (keccak256_packed (prevrandao blk) (timestamp blk) player (_nonce s)) in
  status (run (_drawCard keccak256_packed blk player) s)
    = inr (suit_of_seed seed, rank_of_seed seed) ∧
  _nonce (post (run (_drawCard keccak256_packed blk player) s))
    = (_nonce s + 1) mod 2 ^ 256 ∧
  (0 ≤ _nonce s < 2 ^ 256 - 1 → (_nonce s + 1) mod 2 ^ 256 = _nonce s + 1) ∧
  (∀ v,
     let r :=
       run_payable v
         (startGame keccak256_packed FHE_asEuint8 FHE_allowThis FHE_allow
            FHE_toBytes32 blk player v) s in
     succeeded r = true →
     active (session_of (post r) player) = true ∧
     suit (session_of (post r) player) = suit_of_seed seed ∧
     rank (session_of (post r) player) = rank_of_seed seed ∧
     _nonce (post r) = (_nonce s + 1) mod 2 ^ 256) ∧
  (∀ x, 1 ≤ suit_of_seed x ≤ 4 ∧ 1 ≤ rank_of_seed x ≤ 13) ∧
  uniform_on seeds_with_suit 1 4 ∧
  (∀ v, 1 ≤ v ≤ 4 → seeds_with_suit v = 2 ^ 254) ∧
  (∀ v, 1 ≤ v ≤ 13 →
     seeds_with_rank v = 2 ^ 16 * (rank_quota + (if v =? 1 then 1 else 0))).
Proof.
  intros seed. rewrite drawCard_run. cbn [status post _nonce set_nonce].
  split; [reflexivity|]. split; [reflexivity|].
  split; [intros Hn; apply Z.mod_small; lia|].
  split.
  { intros v. cbv zeta. rewrite startGame_run.
    destruct (negb (v =? GAME_FEE)); [discriminate|].
    destruct (active (session_of s player)); [discriminate|].
    destruct (balance s + v <? FULL_REWARD); [discriminate|].
    intros _. unfold session_of, started. cbn [post games _nonce].
    rewrite lookup_insert_eq. repeat split; reflexivity. }
  split; [intros x; split; [apply suit_of_seed_range|apply rank_of_seed_range]|].
  split.
  { intros v w Hv Hw.
    rewrite (seeds_with_suit_count v Hv), (seeds_with_suit_count w Hw). reflexivity. }
  split; [apply seeds_with_suit_count|apply seeds_with_rank_count].
Qed.

End Draw.

(** ** The session client *)

Lemma scanGuessEvaluated_None logs :
  (∀ p sm rm rw, Client.Described (Client.GuessEvaluated p sm rm rw) ∉ logs) →
  Client.scanGuessEvaluated logs = None.
Proof.
  induction logs as [|l logs IH]; intros H; [reflexivity|].
  assert (Client.scanGuessEvaluated logs = None) as IH'
    by (apply IH; intros p sm rm rw Hin; apply (H p sm rm rw); right; exact Hin).
  destruct l as [| |[p a b|p sm rm rw|a b]]; simpl; try exact IH'.
  exfalso. apply (H p sm rm rw). left.
Qed.

Lemma scanGameStarted_None logs :
  (∀ p a b, Client.Described (Client.GameStarted p a b) ∉ logs) →
  Client.scanGameStarted logs = None.
Proof.
  induction logs as [|l logs IH]; intros H; [reflexivity|].
  assert (Client.scanGameStarted logs = None) as IH'
    by (apply IH; intros p a b Hin; apply (H p a b); right; exact Hin).
  destruct l as [| |[p a b|p sm rm rw|a b]]; simpl; try exact IH'.
  exfalso. apply (H p a b). left.
Qed.

(** C8 (as amended). When the transaction is confirmed and no log of the
    receipt parses as the expected event, the two mutations differ.
    [guessMutation] is rejected with the client's own error "Unable to
    read guess result from transaction logs.", shown as an error; this is
    not the path of a failed transaction, which is rejected with the
    provider's error and shown through [formatError], and the message is
    none of those shown for the contract's custom errors.
    [startGameMutation] reports no failure: it resolves with [null], the
    success message is shown and [lastHandles] is reset. *)
Theorem event_not_found (formatEther : Z → string) (logs : list Client.ParsedLog)
    (page : Client.Page) :
  ((∀ p sm rm rw, Client.Described (Client.GuessEvaluated p sm rm rw) ∉ logs) →
     Client.guessMutation true true true (Client.Confirmed logs) =
       Client.Rejected
         (Client.ClientError "Unable to read guess result from transaction logs.") ∧
     Client.feedback
       (Client.guessSettled formatEther
          (Client.guessMutation true true true (Client.Confirmed logs)) page) =
       Some {| Client.type := Client.error;
               Client.message :=
                 "Unable to read guess result from transaction logs." |}) ∧
  (∀ e,
     Client.guessMutation true true true (Client.Failed e) = Client.Rejected e ∧
     Client.startGameMutation true true (Client.Failed e) = Client.Rejected e ∧
     Client.feedback
       (Client.guessSettled formatEther (Client.Rejected e) page) =
       Some {| Client.type := Client.error; Client.message := Client.formatError e |}) ∧
  (∀ name,
     Client.messageMap name ≠ "Unable to read guess result from transaction logs.") ∧
  ((∀ p a b, Client.Described (Client.GameStarted p a b) ∉ logs) →
     Client.startGameMutation true true (Client.Confirmed logs) =
       Client.Resolved None ∧
     Client.startGameSettled
       (Client.startGameMutation true true (Client.Confirmed logs)) page =
       {| Client.feedback :=
            Some {| Client.type := Client.success;
                    Client.message :=
                      "A fresh encrypted card is ready. Time to guess!" |};
          Client.guessResult := None;
          Client.lastHandles := None |}).
Proof.
  split; [|split; [|split]].
  - intros H. unfold Client.guessMutation. simpl.
    rewrite (scanGuessEvaluated_None logs H). split; reflexivity.
  - intros e. repeat split; reflexivity.
  - intros name. destruct name; discriminate.
  - intros H. unfold Client.startGameMutation. simpl.
    rewrite (scanGameStarted_None logs H). split; reflexivity.
Qed.

(** ** Worked examples *)

Local Abbreviation demo_startGame :=
  (startGame Demo.keccak Demo.asEuint8 Demo.allowThis Demo.allow Demo.toBytes32).
Local Abbreviation demo_reachable :=
  (reachable Demo.keccak Demo.asEuint8 Demo.allowThis Demo.allow Demo.toBytes32).

(** Alice starts a game on a freshly funded ledger and draws [Demo.card]. *)
Lemma demo_start funds :
  FULL_REWARD ≤ funds + GAME_FEE →
  run_payable GAME_FEE (demo_startGame Demo.block Demo.alice GAME_FEE)
    (deployed Demo.house funds) =
    {| status := inr (1003, 1002); post := Demo.table (funds + GAME_FEE);
       emitted := [GameStarted Demo.alice 1003 1002]; trace := [] |}.
Proof.
  intros Hf. rewrite startGame_run.
  change (negb (GAME_FEE =? GAME_FEE)) with false.
  change (active (session_of (deployed Demo.house funds) Demo.alice)) with false.
  cbv iota. apply Z.ltb_ge in Hf. cbn [balance deployed]. rewrite Hf.
  reflexivity.
Qed.

Lemma demo_table_reachable funds :
  0 ≤ funds → FULL_REWARD ≤ funds + GAME_FEE →
  demo_reachable (Demo.table (funds + GAME_FEE)).
Proof.
  intros H0 Hf.
  replace (Demo.table (funds + GAME_FEE)) with
    (post (run_payable GAME_FEE (demo_startGame Demo.block Demo.alice GAME_FEE)
             (deployed Demo.house funds)))
    by (rewrite (demo_start funds Hf); reflexivity).
  eapply reachable_step; [apply reachable_deployed; exact H0|].
  apply step_startGame. unfold GAME_FEE. lia.
Qed.

(** Alice guesses her card exactly and is paid the full reward. *)
Lemma makeGuess_reward_policy_witness :
  in_range 3 2 ∧
  active (session_of (Demo.table FULL_REWARD) Demo.alice) = true ∧
  emitted (run (makeGuess (Demo.code Done) Demo.alice 3 2) (Demo.table FULL_REWARD))
    = [GuessEvaluated Demo.alice true true FULL_REWARD] ∧
  balance (post (run (makeGuess (Demo.code Done) Demo.alice 3 2)
                   (Demo.table FULL_REWARD)))
    = 0.
Proof.
  assert (Hr : in_range 3 2) by (unfold in_range; lia).
  assert (Ha : active (session_of (Demo.table FULL_REWARD) Demo.alice) = true)
    by reflexivity.
  split; [exact Hr|]. split; [exact Ha|].
  destruct (makeGuess_reward_policy Demo.keccak Demo.asEuint8 Demo.allowThis
              Demo.allow Demo.toBytes32 Demo.block Done (Demo.table FULL_REWARD)
              Demo.alice 3 2 Hr Ha) as (_ & _ & _ & Hplain).
  destruct (Hplain eq_refl eq_refl) as (Hev & Hbal & _).
  split; [exact Hev | exact Hbal].
Defined.

(** C2, the claim as stated fails: with a balance of [GAME_FEE], which is
    below [FULL_REWARD], no active session and the right fee, [startGame]
    succeeds, because the fee it carries counts towards the bankroll. *)
Lemma startGame_succeeds_below_full_reward :
  balance (deployed Demo.house GAME_FEE) < FULL_REWARD ∧
  active (session_of (deployed Demo.house GAME_FEE) Demo.alice) = false ∧
  status (run_payable GAME_FEE (demo_startGame Demo.block Demo.alice GAME_FEE)
            (deployed Demo.house GAME_FEE)) = inr (1003, 1002).
Proof.
  split; [reflexivity|]. split; [reflexivity|].
  rewrite demo_start; [reflexivity|]. unfold FULL_REWARD, GAME_FEE. lia.
Qed.

(** The same call, through the bankroll rule as amended. *)
Lemma startGame_bankroll_witness :
  active (session_of (deployed Demo.house GAME_FEE) Demo.alice) = false ∧
  succeeded (run_payable GAME_FEE (demo_startGame Demo.block Demo.alice GAME_FEE)
               (deployed Demo.house GAME_FEE)) = true.
Proof.
  assert (Ha : active (session_of (deployed Demo.house GAME_FEE) Demo.alice) = false)
    by reflexivity.
  split; [exact Ha|].
  destruct (startGame_bankroll Demo.keccak Demo.asEuint8 Demo.allowThis Demo.allow
              Demo.toBytes32 Demo.block (deployed Demo.house GAME_FEE) Demo.alice Ha)
    as (_ & Hok & _).
  apply Hok. unfold FULL_REWARD, GAME_FEE. simpl. lia.
Defined.

(** C3, the claim as stated fails: Alice has an active session, in a
    reachable state, and calls [startGame] without the fee; the call
    reverts with [InvalidFee], not with [ActiveGameExists]. *)
Lemma startGame_while_active_wrong_fee :
  demo_reachable (Demo.table (FULL_REWARD + GAME_FEE)) ∧
  active (session_of (Demo.table (FULL_REWARD + GAME_FEE)) Demo.alice) = true ∧
  status (run_payable 0 (demo_startGame Demo.block Demo.alice 0)
            (Demo.table (FULL_REWARD + GAME_FEE))) = inl InvalidFee.
Proof.
  split; [|split; reflexivity].
  apply demo_table_reachable; unfold FULL_REWARD, GAME_FEE; lia.
Qed.

(** With the fee, the second start is refused with [ActiveGameExists]. *)
Lemma one_active_session_witness :
  demo_reachable (Demo.table (FULL_REWARD + GAME_FEE)) ∧
  (length (active_sessions (Demo.table (FULL_REWARD + GAME_FEE)) Demo.alice) ≤ 1)%nat ∧
  status (run_payable GAME_FEE (demo_startGame Demo.block Demo.alice GAME_FEE)
            (Demo.table (FULL_REWARD + GAME_FEE))) = inl ActiveGameExists.
Proof.
  assert (Hreach : demo_reachable (Demo.table (FULL_REWARD + GAME_FEE)))
    by (apply demo_table_reachable; unfold FULL_REWARD, GAME_FEE; lia).
  split; [exact Hreach|].
  destruct (one_active_session Demo.keccak Demo.asEuint8 Demo.allowThis Demo.allow
              Demo.toBytes32 (Demo.table (FULL_REWARD + GAME_FEE)) Demo.alice Hreach)
    as (Hlen & _ & Hstart).
  split; [exact Hlen|].
  rewrite (Hstart eq_refl Demo.block GAME_FEE). reflexivity.
Defined.



(** Alice misses both suit and rank on a ledger with no funds at all. *)
Lemma makeGuess_no_match_witness :
  in_range 1 5 ∧
  active (session_of (Demo.table 0) Demo.alice) = true ∧
  status (run (makeGuess plain_account Demo.alice 1 5) (Demo.table 0)) = inr () ∧
  balance (post (run (makeGuess plain_account Demo.alice 1 5) (Demo.table 0))) = 0.
Proof.
  assert (Hr : in_range 1 5) by (unfold in_range; lia).
  assert (Ha : active (session_of (Demo.table 0) Demo.alice) = true) by reflexivity.
  assert (Hs : suit (session_of (Demo.table 0) Demo.alice) ≠ 1) by discriminate.
  assert (Hk : rank (session_of (Demo.table 0) Demo.alice) ≠ 5) by discriminate.
  split; [exact Hr|]. split; [exact Ha|].
  destruct (makeGuess_no_match plain_account (Demo.table 0) Demo.alice 1 5 Hr Ha Hs Hk)
    as (Hst & _ & _ & _ & _ & Hbal & _).
  split; [exact Hst | exact Hbal].
Defined.

(** C6, the claim as stated fails: the rank is not uniform over the
    seeds. *)
Lemma rank_not_uniform : ¬ uniform_on seeds_with_rank 1 13.
Proof.
  intros H. specialize (H 1 2 ltac:(lia) ltac:(lia)).
  rewrite (seeds_with_rank_count 1), (seeds_with_rank_count 2) in H by lia.
  change (1 =? 1) with true in H. change (2 =? 1) with false in H. cbv iota in H.
  revert H. generalize rank_quota. intros q H. lia.
Qed.

(** C8, the claim as stated fails for [startGameMutation]: a confirmed
    transaction whose receipt has no [GameStarted] log ends in the success
    message, with no handles. *)
Lemma startGame_missing_event_reports_success :
  Client.startGameMutation true true (Client.Confirmed []) = Client.Resolved None ∧
  Client.feedback
    (Client.startGameSettled
       (Client.startGameMutation true true (Client.Confirmed [])) Client.initialPage) =
    Some {| Client.type := Client.success;
            Client.message := "A fresh encrypted card is ready. Time to guess!" |}.
Proof. split; reflexivity. Qed.

(** C10, the claim as stated fails: the owner withdraws to a contract
    that starts a game when it is paid.  The withdrawal succeeds, and the
    session of the recipient is not what it was. *)
Lemma withdraw_recipient_starts_game :
  demo_reachable (Demo.table (FULL_REWARD + GAME_FEE)) ∧
  let s := Demo.table (FULL_REWARD + GAME_FEE) in
  let r := run (withdraw (Demo.code (Demo.restarts 9)) Demo.house 9 GAME_FEE) s in
  succeeded r = true ∧
  active (session_of s 9) = false ∧
  active (session_of (post r) 9) = true ∧
  session_of (post r) 9 ≠ session_of s 9.
Proof.
  split; [apply demo_table_reachable; unfold FULL_REWARD, GAME_FEE; lia|].
  cbv zeta. repeat split; try reflexivity. discriminate.
Qed.

(** The owner empties the ledger, to an externally owned account, while
    Alice's session is active. *)
Lemma withdraw_frame_witness :
  succeeded (run (withdraw (Demo.code Done) Demo.house 9 FULL_REWARD)
               (Demo.table FULL_REWARD)) = true ∧
  active (session_of (post (run (withdraw (Demo.code Done) Demo.house 9 FULL_REWARD)
                              (Demo.table FULL_REWARD))) Demo.alice) = true ∧
  balance (post (run (withdraw (Demo.code Done) Demo.house 9 FULL_REWARD)
                   (Demo.table FULL_REWARD))) = 0.
Proof.
  destruct (withdraw_frame Demo.keccak Demo.asEuint8 Demo.allowThis Demo.allow
              Demo.toBytes32 Demo.block Done (Demo.table FULL_REWARD) Demo.house 9
              FULL_REWARD) as (_ & _ & Hframe & Hok).
  assert (Hs : succeeded (run (withdraw (Demo.code Done) Demo.house 9 FULL_REWARD)
                            (Demo.table FULL_REWARD)) = true)
    by (apply Hok; [reflexivity|discriminate|apply Z.le_refl|reflexivity]).
  destruct (Hframe Hs eq_refl) as (_ & Hsess & _ & _ & Hbal).
  split; [exact Hs|]. unfold Demo.code. split; [rewrite Hsess; reflexivity|].
  rewrite Hbal. reflexivity.
Defined.

(** A suit of 0 is refused before the session is looked at; a proper
    guess on a ledger without sessions is refused for the lack of one. *)
Lemma makeGuess_guards_witness :
  ¬ in_range 0 2 ∧
  status (run (makeGuess plain_account Demo.alice 0 2) (deployed Demo.house 0))
    = inl InvalidGuess ∧
  in_range 3 2 ∧
  active (session_of (deployed Demo.house 0) Demo.alice) = false ∧
  status (run (makeGuess plain_account Demo.alice 3 2) (deployed Demo.house 0))
    = inl NoActiveGame.
Proof.
  assert (Hout : ¬ in_range 0 2) by (unfold in_range; lia).
  assert (Hin : in_range 3 2) by (unfold in_range; lia).
  assert (Ha : active (session_of (deployed Demo.house 0) Demo.alice) = false)
    by reflexivity.
  destruct (makeGuess_guards plain_account (deployed Demo.house 0) Demo.alice 0 2)
    as (Hbad & _).
  destruct (makeGuess_guards plain_account (deployed Demo.house 0) Demo.alice 3 2)
    as (_ & Hnone).
  split; [exact Hout|]. split; [rewrite (Hbad Hout); reflexivity|].
  split; [exact Hin|]. split; [exact Ha|].
  rewrite (Hnone Hin Ha). reflexivity.
Defined.

(** Alice is not the owner; the house withdraws half of the funds to an
    externally owned account, and then as much to the contract itself,
    which changes nothing. *)
Lemma owner_only_operations_witness :
  Demo.alice ≠ _owner (Demo.table FULL_REWARD) ∧
  status (run (withdraw (Demo.code Done) Demo.alice Demo.alice GAME_FEE)
            (Demo.table FULL_REWARD)) = inl NotOwner ∧
  status (run (transferOwnership Demo.alice Demo.alice) (Demo.table FULL_REWARD))
    = inl NotOwner ∧
  balance (post (run (withdraw (Demo.code Done) Demo.house 9 GAME_FEE)
                   (Demo.table FULL_REWARD))) = GAME_FEE ∧
  post (run (withdraw (Demo.code (ThenDeposit (Z.to_N GAME_FEE) Done)) Demo.house 100
               GAME_FEE) (Demo.table FULL_REWARD)) = Demo.table FULL_REWARD.
Proof.
  assert (Hne : Demo.alice ≠ _owner (Demo.table FULL_REWARD)) by discriminate.
  destruct (owner_only_operations Demo.keccak Demo.asEuint8 Demo.allowThis Demo.allow
              Demo.toBytes32 Demo.block Done (Demo.table FULL_REWARD) Demo.alice
              Demo.alice GAME_FEE Demo.alice) as (Hnot & _).
  destruct (Hnot Hne) as (Hw & Ht).
  destruct (owner_only_operations Demo.keccak Demo.asEuint8 Demo.allowThis Demo.allow
              Demo.toBytes32 Demo.block Done (Demo.table FULL_REWARD) Demo.house
              9 GAME_FEE Demo.alice) as (_ & Hown).
  destruct (Hown eq_refl) as (_ & _ & _ & _ & Hpay & _).
  destruct (owner_only_operations Demo.keccak Demo.asEuint8 Demo.allowThis Demo.allow
              Demo.toBytes32 Demo.block (ThenDeposit (Z.to_N GAME_FEE) Done)
              (Demo.table FULL_REWARD) Demo.house 100 GAME_FEE Demo.alice)
    as (_ & Hself).
  destruct (Hself eq_refl) as (_ & _ & _ & _ & _ & _ & Hback).
  split; [exact Hne|]. split; [exact (f_equal status Hw)|].
  split; [rewrite Ht; reflexivity|]. split.
  - exact (f_equal (λ r, balance (post r))
             (Hpay ltac:(discriminate) ltac:(discriminate) eq_refl)).
  - exact (proj1 (proj2
             (Hback ltac:(discriminate) ltac:(split; discriminate) eq_refl))).
Defined.

(** Alice's start in [Demo.block] stores the card of the seed, and each
    suit has its quarter of the seeds. *)
Lemma drawCard_distribution_witness :
  suit (session_of (Demo.table FULL_REWARD) Demo.alice) = suit_of_seed (2 ^ 16 + 2) ∧
  rank (session_of (Demo.table FULL_REWARD) Demo.alice) = rank_of_seed (2 ^ 16 + 2) ∧
  seeds_with_suit 3 = 2 ^ 254.
Proof.
  destruct (drawCard_distribution Demo.keccak Demo.asEuint8 Demo.allowThis Demo.allow
              Demo.toBytes32 Demo.block Demo.alice (deployed Demo.house GAME_FEE))
    as (_ & _ & _ & Hstart & _ & _ & Hsuit & _).
  destruct (Hstart GAME_FEE eq_refl) as (_ & Hs & Hr & _).
  split; [exact Hs|]. split; [exact Hr|].
  apply Hsuit. split; discriminate.
Defined.

(** A receipt whose logs are of another contract, of an unknown topic and
    of another event of the contract: neither scan finds its event. *)
Lemma event_not_found_witness :
  Client.guessMutation true true true
    (Client.Confirmed
       [Client.Throws; Client.Null;
        Client.Described (Client.OwnershipTransferred "0x01" "0x02")]) =
    Client.Rejected
      (Client.ClientError "Unable to read guess result from transaction logs.") ∧
  Client.startGameMutation true true
    (Client.Confirmed
       [Client.Throws; Client.Null;
        Client.Described (Client.OwnershipTransferred "0x01" "0x02")]) =
    Client.Resolved None.
Proof.
  destruct (event_not_found (λ _, EmptyString)
              [Client.Throws; Client.Null;
               Client.Described (Client.OwnershipTransferred "0x01" "0x02")]
              Client.initialPage) as (Hguess & _ & _ & Hstart).
  split.
  - apply Hguess. intros p sm rm rw Hin.
    repeat (apply elem_of_cons in Hin as [Hin|Hin]; [discriminate|]).
    inversion Hin.
  - apply Hstart. intros p a b Hin.
    repeat (apply elem_of_cons in Hin as [Hin|Hin]; [discriminate|]).
    inversion Hin.
Defined.

(** * Further properties of the contract *)

Section MoreLedgerProperties.

Variable keccak256_packed : Z → Z → address → Z → Z.
Variable FHE_asEuint8 : Z → euint8.
Variable FHE_allowThis : euint8 → euint8.
Variable FHE_allow : euint8 → address → euint8.
Variable FHE_toBytes32 : euint8 → bytes32.
Variable code : M bool.

Local Abbreviation startGame' :=
  (startGame keccak256_packed FHE_asEuint8 FHE_allowThis FHE_allow FHE_toBytes32).
Local Abbreviation perform'' :=
  (perform keccak256_packed FHE_asEuint8 FHE_allowThis FHE_allow FHE_toBytes32).
Local Abbreviation step'' :=
  (step keccak256_packed FHE_asEuint8 FHE_allowThis FHE_allow FHE_toBytes32).
Local Abbreviation reachable'' :=
  (reachable keccak256_packed FHE_asEuint8 FHE_allowThis FHE_allow FHE_toBytes32).

Lemma guess_reward_bounds sm rm :
  guess_reward sm rm = 0 ∨
  (0 < guess_reward sm rm ≤ FULL_REWARD ∧
   (guess_reward sm rm = SUIT_REWARD ∨ guess_reward sm rm = RANK_REWARD ∨
    guess_reward sm rm = FULL_REWARD)).
Proof.
  destruct sm, rm; unfold guess_reward, FULL_REWARD, RANK_REWARD, SUIT_REWARD;
    simpl; lia.
Qed.

(** Every outcome of [makeGuess] for an externally owned caller: it
    reverts and changes nothing, or it pays the reward on the cleared
    ledger. *)
Lemma makeGuess_cases s sender sg rg :
  let r := run (makeGuess plain_account sender sg rg) s in
  let v := guess_reward (suit (session_of s sender) =? sg)
             (rank (session_of s sender) =? rg) in
  let frame := {| call_to := sender; call_value := v;
                  call_ledger := set_balance (balance s - v) (cleared sender s) |} in
  (succeeded r = false ∧ post r = s ∧ emitted r = [] ∧ trace r = []) ∨
  (succeeded r = true ∧ in_range sg rg ∧ active (session_of s sender) = true ∧
   post r = set_balance (balance s - v) (cleared sender s) ∧
   (v = 0 ∨ 0 < v ≤ balance s) ∧
   emitted r = [GuessEvaluated sender (suit (session_of s sender) =? sg)
                  (rank (session_of s sender) =? rg) v] ∧
   trace r = if 0 <? v then [frame] else []).
Proof.
  intros r v frame. subst r frame.
  destruct (decide (in_range sg rg)) as [Hr|Hr];
    [|rewrite (makeGuess_out_of_range _ _ _ _ _ Hr); left; auto].
  destruct (active (session_of s sender)) eqn:Ha;
    [|rewrite (makeGuess_no_session _ _ _ _ _ Hr Ha); left; auto].
  rewrite (makeGuess_plain_settle s sender sg rg Hr Ha). fold v.
  destruct (Z.ltb_spec 0 v) as [Hpos|Hz].
  - destruct (Z.ltb_spec (balance s) v) as [Hlt|Hge]; [left; auto|].
    right. unfold succeeded. cbn [status post emitted trace].
    split; [reflexivity|]. split; [exact Hr|]. split; [reflexivity|].
    split; [reflexivity|]. split; [right; lia|]. split; reflexivity.
  - assert (v = 0) as Hv0
      by (destruct (guess_reward_bounds (suit (session_of s sender) =? sg)
                      (rank (session_of s sender) =? rg)) as [H|[H _]];
          fold v in H; lia).
    right. unfold succeeded. cbn [status post emitted trace].
    split; [reflexivity|]. split; [exact Hr|]. split; [reflexivity|].
    split; [rewrite Hv0, Z.sub_0_r; reflexivity|]. split; [left; exact Hv0|].
    split; reflexivity.
Qed.

Lemma startGame_cases blk s sender v :
  let r := run_payable v (startGame' blk sender v) s in
  (succeeded r = false ∧ post r = s ∧ emitted r = [] ∧ trace r = []) ∨
  (succeeded r = true ∧ v = GAME_FEE ∧ active (session_of s sender) = false ∧
   FULL_REWARD ≤ balance s + GAME_FEE ∧
   r = {| status :=
            inr (start_handles keccak256_packed FHE_asEuint8 FHE_allowThis
                   FHE_allow FHE_toBytes32 blk sender s);
          post := started keccak256_packed FHE_asEuint8 FHE_allowThis FHE_allow
                    blk sender s;
          emitted :=
            [GameStarted sender
               (start_handles keccak256_packed FHE_asEuint8 FHE_allowThis
                  FHE_allow FHE_toBytes32 blk sender s).1
               (start_handles keccak256_packed FHE_asEuint8 FHE_allowThis
                  FHE_allow FHE_toBytes32 blk sender s).2];
          trace := [] |}).
Proof.
  intros r. subst r. rewrite startGame_run.
  destruct (Z.eqb_spec v GAME_FEE) as [->|Hv]; [|left; auto].
  destruct (active (session_of s sender)); [left; auto|].
  destruct (Z.ltb_spec (balance s + GAME_FEE) FULL_REWARD); [left; auto|].
  right. cbn [negb]. split; [reflexivity|]. split; [reflexivity|].
  split; [reflexivity|]. split; [assumption|reflexivity].
Qed.

(** X1. The owner hands the contract over: to the zero address the call
    reverts with [InvalidOwner]; to any other address it succeeds, changes
    the owner only and emits [OwnershipTransferred] with the old and the
    new owner.  From then on the old owner, if another address, is refused
    by both owner operations, and the new owner can hand over in turn. *)
Theorem transferOwnership_hands_over s newOwner :
  let r := run (transferOwnership (_owner s) newOwner) s in
  (newOwner = 0 →
     r = {| status := inl InvalidOwner; post := s; emitted := []; trace := [] |}) ∧
  (newOwner ≠ 0 →
     r = {| status := inr (); post := set_owner newOwner s;
            emitted := [OwnershipTransferred (_owner s) newOwner]; trace := [] |} ∧
     owner (post r) = newOwner ∧
     games (post r) = games s ∧ _nonce (post r) = _nonce s ∧
     balance (post r) = balance s ∧
     (newOwner ≠ _owner s → ∀ recipient amount other,
        status (run (withdraw code (_owner s) recipient amount) (post r))
          = inl NotOwner ∧
        status (run (transferOwnership (_owner s) other) (post r)) = inl NotOwner) ∧
     (∀ other, other ≠ 0 →
        owner (post (run (transferOwnership newOwner other) (post r))) = other)).
Proof.
  intros r. subst r. rewrite transferOwnership_run, Z.eqb_refl. cbn [negb].
  split.
  - intros ->. reflexivity.
  - intros Hnz. apply Z.eqb_neq in Hnz. rewrite Hnz. cbn [post].
    do 5 (split; [reflexivity|]). split.
    + intros Hne recipient amount other.
      rewrite withdraw_run, transferOwnership_run. cbn [_owner set_owner].
      assert ((_owner s =? newOwner) = false) as -> by (apply Z.eqb_neq; congruence).
      split; reflexivity.
    + intros other Ho. rewrite transferOwnership_run. cbn [_owner set_owner].
      rewrite Z.eqb_refl. apply Z.eqb_neq in Ho. rewrite Ho. reflexivity.
Qed.

Lemma step_owner s s' : step'' s s' → _owner s ≠ 0 → _owner s' ≠ 0.
Proof.
  apply (step_preserves keccak256_packed FHE_asEuint8 FHE_allowThis FHE_allow
           FHE_toBytes32 (λ s0, _owner s0 ≠ 0)).
  - intros s0 v _ H. exact H.
  - intros blk s0 sender _ H. exact H.
  - intros s0 sender H. exact H.
  - intros s0 v _ H. exact H.
  - intros s0 o Ho _. exact Ho.
Qed.

(** X2. The constructor makes its caller the owner and announces it; a
    contract deployed by a real account never loses its owner: whatever
    calls and deposits follow, the owner is not the zero address. *)
Theorem owner_never_zero deployer funds s :
  deployer ≠ 0 →
  rtc step'' (post (run (constructor deployer) (blank funds))) s →
  run (constructor deployer) (blank funds) =
    {| status := inr (); post := deployed deployer funds;
       emitted := [OwnershipTransferred 0 deployer]; trace := [] |} ∧
  owner s ≠ 0.
Proof.
  intros Hd Hsteps. split; [reflexivity|].
  revert s Hsteps. apply rtc_ind_r.
  - exact Hd.
  - intros y z _ Hstep IH. unfold owner in *.
    exact (step_owner y z Hstep IH).
Qed.

(** X3. A successful [startGame] returns the two handles the contract
    emits in [GameStarted], and [getActiveGame] shows the caller active
    with the same two handles.  It keeps exactly the fee, leaves at least
    [FULL_REWARD] in the ledger, advances the nonce and does not touch the
    owner. *)
Theorem startGame_success_effects blk s sender v :
  let r := run_payable v (startGame' blk sender v) s in
  succeeded r = true →
  ∃ encSuit encRank,
    status r = inr (encSuit, encRank) ∧
    emitted r = [GameStarted sender encSuit encRank] ∧
    getActiveGame FHE_toBytes32 (post r) sender = (true, encSuit, encRank) ∧
    v = GAME_FEE ∧
    balance (post r) = balance s + GAME_FEE ∧
    FULL_REWARD ≤ balance (post r) ∧
    _owner (post r) = _owner s ∧
    _nonce (post r) = (_nonce s + 1) mod 2 ^ 256.
Proof.
  intros r Hok. subst r.
  destruct (startGame_cases blk s sender v) as [(Hf & _)|(_ & Hv & _ & Hbank & Hr)];
    [congruence|].
  rewrite Hr. cbn [status post emitted trace].
  eexists _, _. split; [reflexivity|]. split; [reflexivity|].
  split.
  { unfold getActiveGame, session_of, started. cbn [games].
    rewrite lookup_insert_eq. reflexivity. }
  split; [exact Hv|].
  split; [reflexivity|]. split; [exact Hbank|]. split; reflexivity.
Qed.

(** X4. What a player's own calls write stays within that player's
    session.  [startGame] called by [sender], whatever its outcome, and
    [makeGuess] called by an externally owned [sender] leave what [games]
    and [getActiveGame] hold for another address as it was.  When
    [sender] is a contract, [makeGuess] itself still writes the entry of
    [sender] alone: the other sessions are as before on the ledger its
    code is entered on, and at the end when no transfer was made. *)
Theorem session_isolation blk callee s sender other v sg rg :
  other ≠ sender →
  let s1 := post (run_payable v (startGame' blk sender v) s) in
  let s2 := post (run (makeGuess plain_account sender sg rg) s) in
  let r := run (makeGuess (perform'' blk callee) sender sg rg) s in
  session_of s1 other = session_of s other ∧
  session_of s2 other = session_of s other ∧
  getActiveGame FHE_toBytes32 s1 other = getActiveGame FHE_toBytes32 s other ∧
  getActiveGame FHE_toBytes32 s2 other = getActiveGame FHE_toBytes32 s other ∧
  (∀ frame rest, trace r = frame :: rest →
     session_of (call_ledger frame) other = session_of s other) ∧
  (trace r = [] → session_of (post r) other = session_of s other).
Proof.
  intros Hne s1 s2 r.
  assert (Hcl : ∀ b, session_of (set_balance b (cleared sender s)) other
                     = session_of s other).
  { intros b. unfold session_of. cbn [games set_balance]. rewrite cleared_games.
    rewrite lookup_delete_ne by congruence. reflexivity. }
  assert (H1 : session_of s1 other = session_of s other).
  { subst s1.
    destruct (startGame_cases blk s sender v) as [(_ & -> & _)|(_ & _ & _ & _ & ->)];
      [reflexivity|].
    unfold session_of, started. cbn [post games].
    rewrite lookup_insert_ne by congruence. reflexivity. }
  assert (H2 : session_of s2 other = session_of s other).
  { subst s2.
    destruct (makeGuess_cases s sender sg rg)
      as [(_ & -> & _)|(_ & _ & _ & -> & _)]; [reflexivity|]. apply Hcl. }
  split; [exact H1|]. split; [exact H2|].
  split; [unfold getActiveGame; rewrite H1; reflexivity|].
  split; [unfold getActiveGame; rewrite H2; reflexivity|].
  subst r.
  destruct (decide (in_range sg rg)) as [Hr|Hr];
    [|rewrite (makeGuess_out_of_range _ _ _ _ _ Hr);
      split; [intros frame rest H; discriminate H|reflexivity]].
  destruct (active (session_of s sender)) eqn:Ha;
    [|rewrite (makeGuess_no_session _ _ _ _ _ Hr Ha);
      split; [intros frame rest H; discriminate H|reflexivity]].
  rewrite (makeGuess_settle (perform'' blk callee) s sender sg rg Hr Ha).
  destruct (0 <? guess_reward _ _).
  - destruct (balance s <? guess_reward _ _);
      [split; [intros frame rest H; discriminate H|reflexivity]|].
    destruct (status _) as [e|[|]]; cbn [trace post];
      (split; [intros frame rest H; injection H as <- _; apply Hcl
              |intros H; discriminate H]).
  - cbn [trace post]. split; [intros frame rest H; discriminate H|].
    intros _. apply (Hcl (balance s)).
Qed.

(** X5. A round played by an externally owned account: on a ledger where
    the caller has no entry and the fee completes the bankroll,
    [startGame] followed by any guess in range never fails, for lack of
    funds, of a session or of a valid guess.  Afterwards the mapping is
    exactly as before the round, the nonce has advanced by one and the
    ledger has gained the fee and lost the reward: at worst it is
    [GAME_FEE] poorer. *)
Theorem start_then_guess blk s sender sg rg :
  games s !! sender = None →
  FULL_REWARD ≤ balance s + GAME_FEE →
  in_range sg rg →
  let s1 := post (run_payable GAME_FEE (startGame' blk sender GAME_FEE) s) in
  let r := run (makeGuess plain_account sender sg rg) s1 in
  let reward := guess_reward (suit (session_of s1 sender) =? sg)
                  (rank (session_of s1 sender) =? rg) in
  active (session_of s1 sender) = true ∧
  succeeded r = true ∧
  games (post r) = games s ∧
  _owner (post r) = _owner s ∧
  _nonce (post r) = (_nonce s + 1) mod 2 ^ 256 ∧
  balance (post r) = balance s + GAME_FEE - reward ∧
  balance s - GAME_FEE ≤ balance (post r) ≤ balance s + GAME_FEE.
Proof.
  intros Hnone Hbank Hr s1 r reward.
  assert (Hs1 : s1 = started keccak256_packed FHE_asEuint8 FHE_allowThis FHE_allow
                       blk sender s).
  { subst s1. rewrite startGame_run.
    assert (active (session_of s sender) = false) as ->
      by (unfold session_of; rewrite Hnone; reflexivity).
    apply Z.ltb_ge in Hbank. rewrite Hbank. reflexivity. }
  assert (Ha : active (session_of s1 sender) = true).
  { rewrite Hs1. unfold session_of, started. cbn [games].
    rewrite lookup_insert_eq. reflexivity. }
  assert (Hbal : balance s1 = balance s + GAME_FEE) by (rewrite Hs1; reflexivity).
  split; [exact Ha|].
  subst r. rewrite (makeGuess_plain_settle s1 sender sg rg Hr Ha). fold reward.
  destruct (guess_reward_bounds (suit (session_of s1 sender) =? sg)
              (rank (session_of s1 sender) =? rg)) as [H0|[Hpos _]];
    fold reward in H0 || fold reward in Hpos.
  - rewrite H0. cbn [Z.ltb Z.compare]. unfold succeeded. cbn [status post].
    split; [reflexivity|].
    rewrite cleared_games. rewrite Hs1. unfold started, cleared. cbn.
    rewrite delete_insert_id by exact Hnone.
    split; [reflexivity|]. split; [reflexivity|]. split; [reflexivity|].
    unfold GAME_FEE. lia.
  - assert ((0 <? reward) = true) as -> by (apply Z.ltb_lt; lia).
    assert ((balance s1 <? reward) = false) as -> by (apply Z.ltb_ge; lia).
    unfold succeeded; cbn [status post].
    split; [reflexivity|].
    rewrite Hs1. unfold started, cleared. cbn.
    rewrite delete_insert_eq, delete_insert_id by exact Hnone.
    split; [reflexivity|]. split; [reflexivity|]. split; [reflexivity|].
    unfold GAME_FEE, FULL_REWARD in *. lia.
Qed.

(** X6. One guess per session: after a successful [makeGuess] by an
    externally owned caller, or by any caller when no reward was
    transferred, a further guess of the same caller, whatever it is and
    whatever code the caller has by then, reverts with [NoActiveGame] (or
    with [InvalidGuess] when out of range); nothing is paid, emitted or
    changed. *)
Theorem no_second_guess blk callee s sender sg rg sg' rg' :
  let r := run (makeGuess (perform'' blk callee) sender sg rg) s in
  succeeded r = true →
  callee = Done ∨ trace r = [] →
  let r' := run (makeGuess code sender sg' rg') (post r) in
  status r' = inl (if decide (in_range sg' rg') then NoActiveGame else InvalidGuess) ∧
  post r' = post r ∧ emitted r' = [] ∧ trace r' = [].
Proof.
  intros r Hok Hplain r'.
  assert (Hgone : active (session_of (post r) sender) = false).
  { subst r. revert Hok Hplain.
    destruct (decide (in_range sg rg)) as [Hr|Hr];
      [|rewrite (makeGuess_out_of_range _ _ _ _ _ Hr); discriminate].
    destruct (active (session_of s sender)) eqn:Ha;
      [|rewrite (makeGuess_no_session _ _ _ _ _ Hr Ha); discriminate].
    rewrite (makeGuess_settle (perform'' blk callee) s sender sg rg Hr Ha).
    destruct (0 <? guess_reward _ _).
    - destruct (balance s <? guess_reward _ _); [discriminate|].
      destruct (status _) as [e|[|]] eqn:Hst; try discriminate.
      intros _ [->|Ht]; [|discriminate Ht]. cbn [post].
      rewrite (perform_Done keccak256_packed FHE_asEuint8 FHE_allowThis FHE_allow
                 FHE_toBytes32 blk), plain_account_run.
      cbn [post]. unfold session_of. cbn [games set_balance].
      rewrite cleared_games, lookup_delete_eq. reflexivity.
    - intros _ _. cbn [post]. rewrite cleared_session. reflexivity. }
  subst r'.
  destruct (decide (in_range sg' rg')) as [Hr|Hr].
  - rewrite makeGuess_no_session; [auto|exact Hr|exact Hgone].
  - rewrite makeGuess_out_of_range by exact Hr. auto.
Qed.

(** X7. The transfer [makeGuess] makes goes to the caller and carries one
    of the three rewards, which the balance covers; a call that fails
    leaves the balance as it was.  With an externally owned caller
    [makeGuess] never takes more than that one reward out of the ledger:
    whatever the guess and the outcome, the balance does not grow and
    falls by at most [FULL_REWARD], and at most one transfer is made. *)
Theorem makeGuess_never_overpays blk callee s sender sg rg :
  let r := run (makeGuess (perform'' blk callee) sender sg rg) s in
  (∀ frame rest, trace r = frame :: rest →
     call_to frame = sender ∧
     (call_value frame = SUIT_REWARD ∨ call_value frame = RANK_REWARD ∨
      call_value frame = FULL_REWARD) ∧
     call_value frame ≤ balance s) ∧
  (succeeded r = false → balance (post r) = balance s) ∧
  (callee = Done →
     0 ≤ balance s - balance (post r) ≤ FULL_REWARD ∧
     (length (trace r) ≤ 1)%nat).
Proof.
  intros r. subst r.
  pose proof (guess_reward_bounds (suit (session_of s sender) =? sg)
                (rank (session_of s sender) =? rg)) as Hb.
  split; [|split].
  - destruct (decide (in_range sg rg)) as [Hr|Hr];
      [|rewrite (makeGuess_out_of_range _ _ _ _ _ Hr);
        intros frame rest H; discriminate H].
    destruct (active (session_of s sender)) eqn:Ha;
      [|rewrite (makeGuess_no_session _ _ _ _ _ Hr Ha);
        intros frame rest H; discriminate H].
    rewrite (makeGuess_settle (perform'' blk callee) s sender sg rg Hr Ha).
    destruct (Z.ltb_spec 0 (guess_reward (suit (session_of s sender) =? sg)
                              (rank (session_of s sender) =? rg))) as [Hpos|Hz];
      [|intros frame rest H; discriminate H].
    destruct (Z.ltb_spec (balance s)
                (guess_reward (suit (session_of s sender) =? sg)
                   (rank (session_of s sender) =? rg))) as [Hlt|Hge];
      [intros frame rest H; discriminate H|].
    destruct (status _) as [e|[|]]; cbn [trace];
      intros frame rest H; injection H as <- _; cbn [call_to call_value];
      (split; [reflexivity|]); (split; [|exact Hge]);
      (destruct Hb as [H0|[_ Hb]]; [lia|exact Hb]).
  - destruct (decide (in_range sg rg)) as [Hr|Hr];
      [|rewrite (makeGuess_out_of_range _ _ _ _ _ Hr); reflexivity].
    destruct (active (session_of s sender)) eqn:Ha;
      [|rewrite (makeGuess_no_session _ _ _ _ _ Hr Ha); reflexivity].
    rewrite (makeGuess_settle (perform'' blk callee) s sender sg rg Hr Ha).
    destruct (0 <? guess_reward _ _); [|discriminate].
    destruct (balance s <? guess_reward _ _); [reflexivity|].
    destruct (status _) as [e|[|]]; try discriminate; reflexivity.
  - intros ->.
    rewrite (perform_Done keccak256_packed FHE_asEuint8 FHE_allowThis FHE_allow
               FHE_toBytes32 blk).
    destruct (makeGuess_cases s sender sg rg)
      as [(_ & -> & _ & ->)|(_ & _ & _ & -> & Hv & _ & ->)].
    + split; [unfold FULL_REWARD; lia|simpl; lia].
    + cbn [balance set_balance].
      split; [destruct Hb as [H0|[Hb _]]; unfold FULL_REWARD in *; lia|].
      destruct (0 <? _); simpl; lia.
Qed.

(** X8. On every reachable ledger a player without an active session has
    no entry at all: the stored suit, rank and handles are zero and
    [getActiveGame] answers with [false] and two zero handles; an active
    session always holds a card in range.  The balance is never negative
    and the nonce stays a [uint256]. *)
Theorem inactive_sessions_are_blank s player :
  reachable'' s →
  (active (session_of s player) = false →
     games s !! player = None ∧
     session_of s player = zeroSession ∧
     getActiveGame FHE_toBytes32 s player = (false, 0, 0)) ∧
  (active (session_of s player) = true →
     1 ≤ suit (session_of s player) ≤ 4 ∧ 1 ≤ rank (session_of s player) ≤ 13) ∧
  0 ≤ balance s ∧
  0 ≤ _nonce s < 2 ^ 256.
Proof.
  intros Hreach.
  pose proof (reachable_ledger_ok _ _ _ _ _ s Hreach) as (Hg & Hb & Hn).
  split; [|split; [|split; [exact Hb|exact Hn]]].
  - intros Ha. unfold getActiveGame. rewrite Ha.
    unfold session_of in Ha |- *. destruct (games s !! player) as [g|] eqn:Hl.
    + destruct (Hg _ _ Hl) as (Hact & _). simpl in Ha. rewrite Hact in Ha. discriminate Ha.
    + split; [reflexivity|]. split; reflexivity.
  - intros Ha. unfold session_of in Ha |- *. destruct (games s !! player) as [g|] eqn:Hl.
    + destruct (Hg _ _ Hl) as (_ & H1 & H2). simpl. split; assumption.
    + discriminate Ha.
Qed.

Lemma receive_run s v :
  run_payable v receive s =
    {| status := inr (); post := set_balance (balance s + v) s; emitted := [];
       trace := [] |}.
Proof. reflexivity. Qed.

(** X9. The bankroll check of [startGame] reserves nothing: a winning
    guess on a ledger that cannot cover its reward reverts with
    [InsufficientBankroll], whoever the caller is, and the session stays
    active.  Once a deposit has covered the shortfall, the same guess by
    an externally owned caller succeeds and pays the reward in full. *)
Theorem underfunded_guess_can_be_retried s sender sg rg topup :
  in_range sg rg →
  active (session_of s sender) = true →
  0 ≤ balance s →
  let reward := guess_reward (suit (session_of s sender) =? sg)
                  (rank (session_of s sender) =? rg) in
  balance s < reward →
  run (makeGuess code sender sg rg) s =
    {| status := inl InsufficientBankroll; post := s; emitted := []; trace := [] |} ∧
  (reward ≤ balance s + topup →
   let s' := post (run_payable topup receive s) in
   let r := run (makeGuess plain_account sender sg rg) s' in
   active (session_of s' sender) = true ∧
   succeeded r = true ∧
   balance (post r) = balance s + topup - reward ∧
   session_of (post r) sender = zeroSession).
Proof.
  intros Hr Ha Hb reward Hlt.
  assert (Hp : (0 <? reward) = true) by (apply Z.ltb_lt; lia).
  split.
  - rewrite (makeGuess_settle code s sender sg rg Hr Ha). fold reward.
    rewrite Hp. apply Z.ltb_lt in Hlt. rewrite Hlt. reflexivity.
  - intros Hcover s'. subst s'. rewrite receive_run. cbn [post].
    cbv zeta. split; [exact Ha|].
    assert (Ha' : active (session_of (set_balance (balance s + topup) s) sender) = true)
      by exact Ha.
    rewrite (makeGuess_plain_settle _ sender sg rg Hr Ha').
    change (session_of (set_balance (balance s + topup) s) sender)
      with (session_of s sender). fold reward.
    cbn [balance set_balance].
    rewrite Hp.
    assert ((balance s + topup <? reward) = false) as -> by (apply Z.ltb_ge; lia).
    unfold succeeded. cbn [status post balance set_balance].
    split; [reflexivity|]. split; [reflexivity|].
    unfold session_of. cbn [games set_balance]. rewrite cleared_games.
    rewrite lookup_delete_eq. reflexivity.
Qed.

End MoreLedgerProperties.

(** ** The odds of a round *)

Lemma all_guesses_in_range : Forall (λ g, in_range g.1 g.2) all_guesses.
Proof.
  unfold all_guesses. simpl.
  repeat (constructor; [unfold in_range; simpl; lia|]). constructor.
Qed.

Lemma paid_reward s sender g :
  in_range g.1 g.2 →
  active (session_of s sender) = true →
  FULL_REWARD ≤ balance s →
  paid s sender g =
    guess_reward (suit (session_of s sender) =? g.1) (rank (session_of s sender) =? g.2).
Proof.
  intros Hr Ha Hb. unfold paid.
  rewrite (makeGuess_plain_settle s sender g.1 g.2 Hr Ha).
  destruct (guess_reward_bounds (suit (session_of s sender) =? g.1)
              (rank (session_of s sender) =? g.2)) as [H0|[Hpos _]].
  - rewrite H0. cbn [Z.ltb Z.compare post balance cleared set_games]. lia.
  - assert ((0 <? guess_reward (suit (session_of s sender) =? g.1)
                    (rank (session_of s sender) =? g.2)) = true) as ->
      by (apply Z.ltb_lt; lia).
    assert ((balance s <? guess_reward (suit (session_of s sender) =? g.1)
                            (rank (session_of s sender) =? g.2)) = false) as ->
      by (apply Z.ltb_ge; lia).
    cbn [post balance set_balance]. lia.
Qed.

(** X10. The odds of a round.  For a player holding any card in range,
    on a ledger that can pay, exactly one of the 52 guesses that
    [makeGuess] accepts is paid [FULL_REWARD], three are paid
    [RANK_REWARD], twelve [SUIT_REWARD] and thirty-six nothing; together
    the 52 guesses are paid 6.2e15 wei, against 52e15 wei of fees. *)
Theorem reward_tiers_count s sender :
  active (session_of s sender) = true →
  1 ≤ suit (session_of s sender) ≤ 4 →
  1 ≤ rank (session_of s sender) ≤ 13 →
  FULL_REWARD ≤ balance s →
  length all_guesses = 52%nat ∧
  guesses_paid s sender FULL_REWARD = 1%nat ∧
  guesses_paid s sender RANK_REWARD = 3%nat ∧
  guesses_paid s sender SUIT_REWARD = 12%nat ∧
  guesses_paid s sender 0 = 36%nat ∧
  foldr Z.add 0 (paid s sender <$> all_guesses) = 6200000000000000.
Proof.
  intros Ha Hs Hk Hb.
  assert (Hpaid : paid s sender <$> all_guesses =
                  (λ g, guess_reward (suit (session_of s sender) =? g.1)
                          (rank (session_of s sender) =? g.2)) <$> all_guesses).
  { apply list_fmap_ext. intros i g Hl.
    apply paid_reward; [|exact Ha|exact Hb].
    exact (proj1 (Forall_lookup _ _) all_guesses_in_range i g Hl). }
  unfold guesses_paid. rewrite Hpaid. clear Hpaid.
  generalize dependent (rank (session_of s sender)). intros b Hk.
  generalize dependent (suit (session_of s sender)). intros a Hs.
  assert (a = 1 ∨ a = 2 ∨ a = 3 ∨ a = 4) as Ha4 by lia.
  assert (b = 1 ∨ b = 2 ∨ b = 3 ∨ b = 4 ∨ b = 5 ∨ b = 6 ∨ b = 7 ∨ b = 8 ∨ b = 9 ∨
          b = 10 ∨ b = 11 ∨ b = 12 ∨ b = 13) as Hb13 by lia.
  clear Hs Hk.
  destruct Ha4 as [ -> | [ -> | [ -> | -> ] ] ];
    destruct Hb13
      as [ -> | [ -> | [ -> | [ -> | [ -> | [ -> | [ -> | [ -> | [ -> | [ -> | [ -> | [ -> | -> ] ] ] ] ] ] ] ] ] ] ] ];
    vm_compute; repeat split.
Qed.

(** Alice's card, on a ledger holding one full reward. *)
Lemma reward_tiers_count_witness :
  active (session_of (Demo.table FULL_REWARD) Demo.alice) = true ∧
  guesses_paid (Demo.table FULL_REWARD) Demo.alice FULL_REWARD = 1%nat ∧
  guesses_paid (Demo.table FULL_REWARD) Demo.alice 0 = 36%nat.
Proof.
  assert (Ha : active (session_of (Demo.table FULL_REWARD) Demo.alice) = true)
    by reflexivity.
  split; [exact Ha|].
  destruct (reward_tiers_count (Demo.table FULL_REWARD) Demo.alice Ha)
    as (_ & Hfull & _ & _ & Hnone & _).
  - split; discriminate.
  - split; discriminate.
  - apply Z.le_refl.
  - split; [exact Hfull|exact Hnone].
Defined.

(** * Further properties of the session client *)

Lemma scanGuessEvaluated_own logs :
  Client.scanGuessEvaluated logs = Client.scanGuessEvaluated (ClientView.own_logs logs).
Proof.
  unfold ClientView.own_logs.
  induction logs as [|l logs IH]; [reflexivity|].
  rewrite filter_cons.
  destruct l as [| |[p a b|p sm rm rw|a b]]; simpl; try exact IH; reflexivity.
Qed.

Lemma scanGameStarted_own logs :
  Client.scanGameStarted logs = Client.scanGameStarted (ClientView.own_logs logs).
Proof.
  unfold ClientView.own_logs.
  induction logs as [|l logs IH]; [reflexivity|].
  rewrite filter_cons.
  destruct l as [| |[p a b|p sm rm rw|a b]]; simpl; try exact IH; reflexivity.
Qed.

(** X11. The two scans of a receipt see the contract's own logs only:
    logs on which [parseLog] throws or returns [null] may stand anywhere
    without changing the result.  Each scan stops at the first log of its
    event, whatever follows it. *)
Theorem scans_skip_foreign_logs logs :
  Client.scanGuessEvaluated logs
    = Client.scanGuessEvaluated (ClientView.own_logs logs) ∧
  Client.scanGameStarted logs
    = Client.scanGameStarted (ClientView.own_logs logs) ∧
  (∀ rest p sm rm rw,
     Client.scanGuessEvaluated logs = None →
     Client.scanGuessEvaluated
       (logs ++ Client.Described (Client.GuessEvaluated p sm rm rw) :: rest) =
       Some {| Client.suitMatched := sm; Client.rankMatched := rm;
               Client.reward := rw |}) ∧
  (∀ rest p encSuit encRank,
     Client.scanGameStarted logs = None →
     Client.scanGameStarted
       (logs ++ Client.Described (Client.GameStarted p encSuit encRank) :: rest) =
       Some (encSuit, encRank)).
Proof.
  split; [apply scanGuessEvaluated_own|]. split; [apply scanGameStarted_own|].
  split.
  - intros rest p sm rm rw. induction logs as [|l logs IH]; [reflexivity|].
    destruct l as [| |[p' a b|p' sm' rm' rw'|a b]]; simpl; auto. discriminate.
  - intros rest p encSuit encRank. induction logs as [|l logs IH]; [reflexivity|].
    destruct l as [| |[p' a b|p' sm' rm' rw'|a b]]; simpl; auto. discriminate.
Qed.

(** X12. A resolved guess is always stored as the last result and leaves
    the remembered handles alone; the feedback is a success exactly when
    something was paid or something matched, and the error "No matches"
    otherwise. *)
Theorem guess_feedback_kind (formatEther : Z → string) (result : Client.GuessResult)
    (page : Client.Page) :
  let page' := Client.guessSettled formatEther (Client.Resolved result) page in
  Client.guessResult page' = Some result ∧
  Client.lastHandles page' = Client.lastHandles page ∧
  ∃ f, Client.feedback page' = Some f ∧
       (Client.type f = Client.success ↔
          0 < Client.reward result ∨ Client.suitMatched result = true
          ∨ Client.rankMatched result = true) ∧
       (Client.type f = Client.error →
          Client.message f = "No matches. Try another combination.").
Proof.
  intros page'. subst page'. cbn [Client.guessSettled Client.guessResult
                                   Client.lastHandles Client.feedback].
  split; [reflexivity|]. split; [reflexivity|].
  eexists. split; [reflexivity|].
  destruct (Z.ltb_spec 0 (Client.reward result)) as [Hpos|Hz].
  - cbn. split; [split; auto|discriminate].
  - destruct (Client.suitMatched result), (Client.rankMatched result); cbn;
      (split; [split; [auto; discriminate|]|]); try discriminate; auto.
    intros [H|[H|H]]; [lia|discriminate|discriminate].
Qed.

(** X13. The ten custom errors of the contract are shown with ten
    different messages, and a provider error that carries one of them is
    shown by that message whatever its own text. *)
Theorem messageMap_injective (a b : Error) (text : string) :
  (Client.messageMap a = Client.messageMap b → a = b) ∧
  Client.formatError (Client.ProviderError (Some a) text) = Client.messageMap a.
Proof.
  split; [|reflexivity].
  destruct a, b; intros H; try reflexivity; discriminate H.
Qed.

(** ** The client on the receipts and reads of the contract *)

Section ClientOnLedger.

Variable keccak256_packed : Z → Z → address → Z → Z.
Variable FHE_asEuint8 : Z → euint8.
Variable FHE_allowThis : euint8 → euint8.
Variable FHE_allow : euint8 → address → euint8.
Variable FHE_toBytes32 : euint8 → bytes32.
Variable hex : Z → string.
Variable formatEther : Z → string.
Variable DEFAULT_GAME_FEE_WEI : Z.
Variable DEFAULT_FULL_REWARD_WEI : Z.

Local Abbreviation startGame'' :=
  (startGame keccak256_packed FHE_asEuint8 FHE_allowThis FHE_allow FHE_toBytes32).

(** X14. The client reads a guess as the contract settled it.  For the
    receipt of a successful [makeGuess] by an externally owned caller,
    [guessMutation] resolves with the two match flags and the reward of
    the contract, which is what the ledger paid.  The page then shows
    "Victory!" with the reward when the suit or the rank matched and "No
    matches" when neither did: with this contract a match is never left
    unpaid, so the "Close call!" message is never shown. *)
Theorem client_reads_guess_receipt s sender sg rg logs page :
  let r := run (makeGuess plain_account sender sg rg) s in
  succeeded r = true →
  ClientView.own_logs logs = ClientView.parseLog hex <$> emitted r →
  let sm := suit (session_of s sender) =? sg in
  let rm := rank (session_of s sender) =? rg in
  let outcome := Client.guessMutation true true true (Client.Confirmed logs) in
  outcome =
    Client.Resolved {| Client.suitMatched := sm; Client.rankMatched := rm;
                       Client.reward := guess_reward sm rm |} ∧
  balance s - balance (post r) = guess_reward sm rm ∧
  Client.feedback (Client.guessSettled formatEther outcome page) =
    Some (if sm || rm
          then {| Client.type := Client.success;
                  Client.message :=
                    "Victory! " +:+ formatEther (guess_reward sm rm)
                    +:+ " ETH rewarded." |}
          else {| Client.type := Client.error;
                  Client.message := "No matches. Try another combination." |}).
Proof.
  intros r Hok Hlogs sm rm outcome. subst r outcome.
  destruct (makeGuess_cases s sender sg rg)
    as [(Hf & _)|(_ & _ & _ & Hpost & _ & Hev & _)]; [congruence|].
  fold sm rm in Hpost, Hev. rewrite Hev in Hlogs.
  assert (Hscan : Client.scanGuessEvaluated logs =
                  Some {| Client.suitMatched := sm; Client.rankMatched := rm;
                          Client.reward := guess_reward sm rm |})
    by (rewrite scanGuessEvaluated_own, Hlogs; reflexivity).
  unfold Client.guessMutation. cbn [negb]. rewrite Hscan.
  split; [reflexivity|]. split; [rewrite Hpost; cbn [balance set_balance]; lia|].
  destruct sm, rm; reflexivity.
Qed.

(** X15. The client reads a start as the contract made it.  For the
    receipt of a successful [startGame], [startGameMutation] resolves with
    the two handles the call returned, as long as their text is not
    empty; they are the handles the [active-game] query then reads through
    [getActiveGame], and with them the guess controls are enabled. *)
Theorem client_reads_start_receipt blk s sender v logs page encSuit encRank :
  let r := run_payable v (startGame'' blk sender v) s in
  status r = inr (encSuit, encRank) →
  ClientView.own_logs logs = ClientView.parseLog hex <$> emitted r →
  hex encSuit ≠ EmptyString →
  hex encRank ≠ EmptyString →
  let outcome := Client.startGameMutation true true (Client.Confirmed logs) in
  let view := fresh_view hex FHE_toBytes32 (post r) sender true false false in
  outcome = Client.Resolved (Some (hex encSuit, hex encRank)) ∧
  Client.lastHandles (Client.startGameSettled outcome page)
    = Some (hex encSuit, hex encRank) ∧
  Client.guessResult (Client.startGameSettled outcome page) = None ∧
  ClientView.activeGame view =
    Some {| ClientView.encryptedSuit := hex encSuit;
            ClientView.encryptedRank := hex encRank |} ∧
  ClientView.isGuessDisabled view = false ∧
  ClientView.isStartDisabled DEFAULT_GAME_FEE_WEI DEFAULT_FULL_REWARD_WEI view = true.
Proof.
  intros r Hst Hlogs Hs Hr outcome view. subst r outcome view.
  destruct (startGame_cases keccak256_packed FHE_asEuint8 FHE_allowThis FHE_allow
              FHE_toBytes32 blk s sender v)
    as [(Hf & _)|(_ & _ & _ & _ & Hrun)];
    [unfold succeeded in Hf; rewrite Hst in Hf; discriminate|].
  rewrite Hrun in Hst, Hlogs |- *. cbn [status emitted post] in *.
  assert (Hh : start_handles keccak256_packed FHE_asEuint8 FHE_allowThis FHE_allow
                 FHE_toBytes32 blk sender s = (encSuit, encRank))
    by congruence.
  rewrite Hh in Hlogs. cbn [fst snd] in Hlogs.
  assert (Hscan : Client.scanGameStarted logs = Some (hex encSuit, hex encRank))
    by (rewrite scanGameStarted_own, Hlogs; reflexivity).
  assert (Ht : ∀ x, x ≠ EmptyString → Client.truthy x = true)
    by (intros x Hx; unfold Client.truthy; destruct x; [congruence|reflexivity]).
  unfold Client.startGameMutation. cbn [negb]. rewrite Hscan, (Ht _ Hs), (Ht _ Hr).
  cbn [andb].
  assert (Hview : getActiveGame FHE_toBytes32
                    (started keccak256_packed FHE_asEuint8 FHE_allowThis
                       FHE_allow blk sender s) sender = (true, encSuit, encRank)).
  { unfold getActiveGame, session_of, started. cbn [games].
    rewrite lookup_insert_eq. cbn. unfold start_handles in Hh. exact (f_equal (λ p, (true, p.1, p.2)) Hh). }
  unfold fresh_view. rewrite Hview.
  split; [reflexivity|]. split; [reflexivity|]. split; [reflexivity|].
  split; [reflexivity|]. split; reflexivity.
Qed.

(** X16. The controls of the page agree with the guards of the contract.
    With a connected wallet, nothing pending and the three queries fresh,
    the client sends exactly [GAME_FEE], the start button is enabled
    exactly when [startGame] with that fee would succeed, the bankroll
    warning is shown exactly when balance plus fee is below [FULL_REWARD],
    and the guess controls are enabled exactly when the player has an
    active session. *)
Theorem controls_agree_with_contract blk s player :
  let view := fresh_view hex FHE_toBytes32 s player true false false in
  ClientView.currentGameFee DEFAULT_GAME_FEE_WEI view = GAME_FEE ∧
  (ClientView.isStartDisabled DEFAULT_GAME_FEE_WEI DEFAULT_FULL_REWARD_WEI view = false ↔
     succeeded (run_payable GAME_FEE (startGame'' blk player GAME_FEE) s) = true) ∧
  (ClientView.isBankrollInsufficient DEFAULT_GAME_FEE_WEI DEFAULT_FULL_REWARD_WEI view
     = true ↔ balance s + GAME_FEE < FULL_REWARD) ∧
  (ClientView.isGuessDisabled view = false ↔ active (session_of s player) = true).
Proof.
  intros view. subst view. rewrite startGame_run.
  unfold fresh_view, getActiveGame, houseBalance,
    ClientView.isStartDisabled, ClientView.isGuessDisabled,
    ClientView.isBankrollInsufficient, ClientView.canCoverFullReward,
    ClientView.projectedBalance, ClientView.currentHouseBalance,
    ClientView.currentGameFee, ClientView.currentFullReward,
    ClientView.hasTermsData, ClientView.hasBalanceData.
  change (negb (GAME_FEE =? GAME_FEE)) with false. cbv iota.
  destruct (active (session_of s player)) eqn:Ha; cbn.
  - unfold succeeded. cbn.
    destruct (Z.leb_spec FULL_REWARD (balance s + GAME_FEE)); cbn;
      repeat split; try discriminate; try reflexivity; intros; lia.
  - destruct (Z.leb_spec FULL_REWARD (balance s + GAME_FEE)) as [Hle|Hlt];
      destruct (Z.ltb_spec (balance s + GAME_FEE) FULL_REWARD) as [Hlt'|Hle'];
      try lia; unfold succeeded; cbn;
      repeat split; try discriminate; try reflexivity; intros; try lia;
      try assumption.
Qed.

End ClientOnLedger.

(** ** Sessions can always be closed, and the scenarios of the tests *)

Section Scenarios.

Variable keccak256_packed : Z → Z → address → Z → Z.
Variable FHE_asEuint8 : Z → euint8.
Variable FHE_allowThis : euint8 → euint8.
Variable FHE_allow : euint8 → address → euint8.
Variable FHE_toBytes32 : euint8 → bytes32.
Variable code : M bool.

Local Abbreviation startGame3 :=
  (startGame keccak256_packed FHE_asEuint8 FHE_allowThis FHE_allow FHE_toBytes32).
Local Abbreviation reachable3 :=
  (reachable keccak256_packed FHE_asEuint8 FHE_allowThis FHE_allow FHE_toBytes32).

Lemma wrong_guess_misses suit rank :
  1 ≤ suit ≤ 4 → 1 ≤ rank ≤ 13 →
  in_range (wrongSuit suit) (wrongRank rank) ∧
  (suit =? wrongSuit suit) = false ∧ (rank =? wrongRank rank) = false.
Proof.
  intros Hs Hk. unfold wrongSuit, wrongRank, in_range.
  destruct (Z.eqb_spec suit 4), (Z.eqb_spec rank 13);
    repeat split; try lia; apply Z.eqb_neq; lia.
Qed.

(** X17. No session can get stuck.  On every reachable ledger a player
    with an active session has a guess in range, one that misses both the
    suit and the rank, with which [makeGuess] succeeds whatever the
    balance is and whoever the player is: the session is closed, nothing
    is paid, and no external call is made. *)
Theorem session_can_always_be_closed s player :
  reachable3 s →
  active (session_of s player) = true →
  ∃ sg rg,
    in_range sg rg ∧
    let r := run (makeGuess code player sg rg) s in
    succeeded r = true ∧
    trace r = [] ∧
    balance (post r) = balance s ∧
    getActiveGame FHE_toBytes32 (post r) player = (false, 0, 0).
Proof.
  intros Hreach Ha.
  pose proof (reachable_ledger_ok _ _ _ _ _ s Hreach) as (Hg & _ & _).
  assert (Hcard : 1 ≤ suit (session_of s player) ≤ 4 ∧
                  1 ≤ rank (session_of s player) ≤ 13).
  { unfold session_of in Ha |- *. destruct (games s !! player) as [g|] eqn:Hl.
    - destruct (Hg _ _ Hl) as (_ & H1 & H2). simpl. split; assumption.
    - discriminate Ha. }
  destruct (wrong_guess_misses _ _ (proj1 Hcard) (proj2 Hcard)) as (Hr & Hs & Hk).
  exists (wrongSuit (suit (session_of s player))),
    (wrongRank (rank (session_of s player))).
  split; [exact Hr|]. cbv zeta.
  rewrite (makeGuess_settle code s player _ _ Hr Ha), Hs, Hk.
  change (0 <? guess_reward false false) with false. cbv iota.
  unfold succeeded. cbn [status trace post].
  split; [reflexivity|]. split; [reflexivity|]. split; [reflexivity|].
  unfold getActiveGame. rewrite cleared_session. reflexivity.
Qed.

(** X18. The two guessing tests pass for every card that can be drawn.
    After a fresh deployment, a deposit of at least [FULL_REWARD] and a
    start with the fee, the guess built with [wrongSuit] and [wrongRank]
    from the card is accepted, leaves the balance as it was and the
    player inactive, whoever the player is; the guess of the card itself,
    by a player that is an externally owned account as the signers of the
    tests are, lowers the balance by exactly [FULL_REWARD]. *)
Theorem guessing_tests_pass_for_every_card blk deployer player funds :
  FULL_REWARD ≤ funds →
  let s0 := post (run (constructor deployer) (blank 0)) in
  let s1 := post (run_payable funds receive s0) in
  let s2 := post (run_payable GAME_FEE (startGame3 blk player GAME_FEE) s1) in
  let card := session_of s2 player in
  let lose := run (makeGuess code player (wrongSuit (suit card))
                     (wrongRank (rank card))) s2 in
  let win := run (makeGuess plain_account player (suit card) (rank card)) s2 in
  getActiveGame FHE_toBytes32 s2 player
    = (true, FHE_toBytes32 (encryptedSuit card), FHE_toBytes32 (encryptedRank card)) ∧
  (succeeded lose = true ∧
   balance (post lose) = balance s2 ∧
   getActiveGame FHE_toBytes32 (post lose) player = (false, 0, 0)) ∧
  (succeeded win = true ∧
   balance s2 - balance (post win) = FULL_REWARD).
Proof.
  intros Hf s0 s1 s2 card lose win.
  assert (Hs1 : s1 = deployed deployer funds) by reflexivity.
  assert (Hs2 : s2 = started keccak256_packed FHE_asEuint8 FHE_allowThis FHE_allow
                       blk player s1).
  { subst s2. rewrite startGame_run, Hs1.
    change (negb (GAME_FEE =? GAME_FEE)) with false.
    change (active (session_of (deployed deployer funds) player)) with false.
    cbv iota. cbn [balance deployed].
    assert ((funds + GAME_FEE <? FULL_REWARD) = false) as ->
      by (apply Z.ltb_ge; unfold GAME_FEE; lia).
    reflexivity. }
  assert (Hcard : card = {| encryptedSuit := encryptedSuit card;
                            encryptedRank := encryptedRank card;
                            suit := suit card; rank := rank card; active := true |}
                  ∧ 1 ≤ suit card ≤ 4 ∧ 1 ≤ rank card ≤ 13).
  { subst card. rewrite Hs2. unfold session_of, started. cbn [games].
    rewrite lookup_insert_eq. cbn.
    split; [reflexivity|].
    split; [apply suit_of_seed_range|apply rank_of_seed_range]. }
  destruct Hcard as (Hrec & Hsuit & Hrank).
  assert (Hac : active card = true) by (rewrite Hrec; reflexivity).
  assert (Ha : active (session_of s2 player) = true) by exact Hac.
  assert (Hbal : FULL_REWARD ≤ balance s2)
    by (rewrite Hs2, Hs1; cbn [balance started deployed]; unfold GAME_FEE; lia).
  split; [unfold getActiveGame; change (session_of s2 player) with card;
          rewrite Hac; reflexivity|].
  destruct (wrong_guess_misses _ _ Hsuit Hrank) as (Hr & Hms & Hmk).
  split.
  - subst lose. rewrite (makeGuess_settle code s2 player _ _ Hr Ha).
    fold card. rewrite Hms, Hmk.
    change (0 <? guess_reward false false) with false. cbv iota.
    unfold succeeded. cbn [status post].
    split; [reflexivity|]. split; [reflexivity|].
    unfold getActiveGame. rewrite cleared_session. reflexivity.
  - subst win.
    assert (Hin : in_range (suit card) (rank card)) by (split; assumption).
    rewrite (makeGuess_plain_settle s2 player _ _ Hin Ha).
    fold card. rewrite !Z.eqb_refl.
    change (guess_reward true true) with FULL_REWARD.
    change (0 <? FULL_REWARD) with true. cbv iota.
    assert ((balance s2 <? FULL_REWARD) = false) as -> by (apply Z.ltb_ge; lia).
    unfold succeeded. cbn [status post balance set_balance].
    split; [reflexivity|lia].
Qed.

End Scenarios.

(** ** Worked examples for the further properties *)

Local Abbreviation demo_startGame' :=
  (startGame Demo.keccak Demo.asEuint8 Demo.allowThis Demo.allow Demo.toBytes32).
Local Abbreviation demo_step :=
  (step Demo.keccak Demo.asEuint8 Demo.allowThis Demo.allow Demo.toBytes32).

Lemma demo_first_step :
  rtc demo_step (post (run (constructor Demo.house) (blank FULL_REWARD)))
    (Demo.table (FULL_REWARD + GAME_FEE)).
Proof.
  apply rtc_once.
  replace (Demo.table (FULL_REWARD + GAME_FEE)) with
    (post (run_payable GAME_FEE (demo_startGame' Demo.block Demo.alice GAME_FEE)
             (deployed Demo.house FULL_REWARD)))
    by (rewrite demo_start; [reflexivity|unfold FULL_REWARD, GAME_FEE; lia]).
  apply step_startGame. unfold GAME_FEE. lia.
Qed.

(** The house deploys, Alice starts a game: the house still owns. *)
Lemma owner_never_zero_witness :
  Demo.house ≠ 0 ∧
  rtc demo_step (post (run (constructor Demo.house) (blank FULL_REWARD)))
    (Demo.table (FULL_REWARD + GAME_FEE)) ∧
  owner (Demo.table (FULL_REWARD + GAME_FEE)) ≠ 0.
Proof.
  assert (Hd : Demo.house ≠ 0) by discriminate.
  split; [exact Hd|]. split; [exact demo_first_step|].
  exact (proj2 (owner_never_zero Demo.keccak Demo.asEuint8 Demo.allowThis Demo.allow
                  Demo.toBytes32 Demo.house FULL_REWARD _ Hd demo_first_step)).
Defined.

(** Alice's start on the ledger that holds one fee. *)
Lemma startGame_success_effects_witness :
  succeeded (run_payable GAME_FEE (demo_startGame' Demo.block Demo.alice GAME_FEE)
               (deployed Demo.house GAME_FEE)) = true ∧
  ∃ encSuit encRank,
    getActiveGame Demo.toBytes32
      (post (run_payable GAME_FEE (demo_startGame' Demo.block Demo.alice GAME_FEE)
               (deployed Demo.house GAME_FEE))) Demo.alice = (true, encSuit, encRank).
Proof.
  assert (Hok : succeeded (run_payable GAME_FEE
                             (demo_startGame' Demo.block Demo.alice GAME_FEE)
                             (deployed Demo.house GAME_FEE)) = true) by reflexivity.
  split; [exact Hok|].
  destruct (startGame_success_effects Demo.keccak Demo.asEuint8 Demo.allowThis
              Demo.allow Demo.toBytes32 Demo.block (deployed Demo.house GAME_FEE)
              Demo.alice GAME_FEE Hok) as (a & b & _ & _ & Hview & _).
  exists a, b. exact Hview.
Defined.

(** Alice's winning guess leaves the house's (empty) slot alone. *)
Lemma session_isolation_witness :
  Demo.house ≠ Demo.alice ∧
  session_of (post (run (makeGuess plain_account Demo.alice 3 2)
                      (Demo.table FULL_REWARD))) Demo.house
    = session_of (Demo.table FULL_REWARD) Demo.house.
Proof.
  assert (Hne : Demo.house ≠ Demo.alice) by discriminate.
  split; [exact Hne|].
  exact (proj1 (proj2 (session_isolation Demo.keccak Demo.asEuint8 Demo.allowThis
                         Demo.allow Demo.toBytes32 Demo.block Done
                         (Demo.table FULL_REWARD) Demo.alice Demo.house 0 3 2 Hne))).
Defined.

(** Alice starts on a ledger holding one fee and guesses her card. *)
Lemma start_then_guess_witness :
  games (deployed Demo.house GAME_FEE) !! Demo.alice = None ∧
  FULL_REWARD ≤ balance (deployed Demo.house GAME_FEE) + GAME_FEE ∧
  in_range 3 2 ∧
  active (session_of
            (post (run_payable GAME_FEE
                     (demo_startGame' Demo.block Demo.alice GAME_FEE)
                     (deployed Demo.house GAME_FEE))) Demo.alice) = true.
Proof.
  assert (Hn : games (deployed Demo.house GAME_FEE) !! Demo.alice = None)
    by reflexivity.
  assert (Hb : FULL_REWARD ≤ balance (deployed Demo.house GAME_FEE) + GAME_FEE)
    by discriminate.
  assert (Hr : in_range 3 2) by (unfold in_range; lia).
  split; [exact Hn|]. split; [exact Hb|]. split; [exact Hr|].
  exact (proj1 (start_then_guess Demo.keccak Demo.asEuint8 Demo.allowThis Demo.allow
                  Demo.toBytes32 Demo.block
                  (deployed Demo.house GAME_FEE) Demo.alice 3 2 Hn Hb Hr)).
Defined.

(** Alice guesses her card, is paid, and tries the same guess again. *)
Lemma no_second_guess_witness :
  succeeded (run (makeGuess (Demo.code Done) Demo.alice 3 2) (Demo.table FULL_REWARD))
    = true ∧
  status (run (makeGuess plain_account Demo.alice 3 2)
            (post (run (makeGuess (Demo.code Done) Demo.alice 3 2)
                     (Demo.table FULL_REWARD)))) = inl NoActiveGame.
Proof.
  assert (Hok : succeeded (run (makeGuess (Demo.code Done) Demo.alice 3 2)
                             (Demo.table FULL_REWARD)) = true) by reflexivity.
  split; [exact Hok|].
  destruct (no_second_guess Demo.keccak Demo.asEuint8 Demo.allowThis Demo.allow
              Demo.toBytes32 plain_account Demo.block Done (Demo.table FULL_REWARD)
              Demo.alice 3 2 3 2 Hok (or_introl eq_refl)) as (Hst & _).
  unfold Demo.code. rewrite Hst. destruct (decide (in_range 3 2)) as [_|Hn]; [reflexivity|].
  exfalso. apply Hn. unfold in_range. lia.
Defined.

(** The house, which never played, on the ledger where Alice plays. *)
Lemma inactive_sessions_are_blank_witness :
  reachable Demo.keccak Demo.asEuint8 Demo.allowThis Demo.allow Demo.toBytes32
    (Demo.table (FULL_REWARD + GAME_FEE)) ∧
  games (Demo.table (FULL_REWARD + GAME_FEE)) !! Demo.house = None ∧
  0 ≤ balance (Demo.table (FULL_REWARD + GAME_FEE)).
Proof.
  assert (Hreach : reachable Demo.keccak Demo.asEuint8 Demo.allowThis Demo.allow
                     Demo.toBytes32 (Demo.table (FULL_REWARD + GAME_FEE)))
    by (apply demo_table_reachable; unfold FULL_REWARD, GAME_FEE; lia).
  split; [exact Hreach|].
  destruct (inactive_sessions_are_blank Demo.keccak Demo.asEuint8 Demo.allowThis
              Demo.allow Demo.toBytes32 (Demo.table (FULL_REWARD + GAME_FEE))
              Demo.house Hreach) as (Hblank & _ & Hbal & _).
  split; [exact (proj1 (Hblank eq_refl))|exact Hbal].
Defined.

(** Alice guesses her card on an empty ledger; the house then funds it. *)
Lemma underfunded_guess_can_be_retried_witness :
  in_range 3 2 ∧
  active (session_of (Demo.table 0) Demo.alice) = true ∧
  0 ≤ balance (Demo.table 0) ∧
  balance (Demo.table 0) < guess_reward true true ∧
  status (run (makeGuess plain_account Demo.alice 3 2) (Demo.table 0))
    = inl InsufficientBankroll ∧
  succeeded (run (makeGuess plain_account Demo.alice 3 2)
               (post (run_payable FULL_REWARD receive (Demo.table 0)))) = true.
Proof.
  assert (Hr : in_range 3 2) by (unfold in_range; lia).
  assert (Ha : active (session_of (Demo.table 0) Demo.alice) = true) by reflexivity.
  assert (Hb : 0 ≤ balance (Demo.table 0)) by discriminate.
  assert (Hlt : balance (Demo.table 0) <
                guess_reward (suit (session_of (Demo.table 0) Demo.alice) =? 3)
                  (rank (session_of (Demo.table 0) Demo.alice) =? 2))
    by reflexivity.
  destruct (underfunded_guess_can_be_retried plain_account (Demo.table 0) Demo.alice
              3 2 FULL_REWARD Hr Ha Hb Hlt) as (Hrev & Hretry).
  split; [exact Hr|]. split; [exact Ha|]. split; [exact Hb|]. split; [exact Hlt|].
  split; [rewrite Hrev; reflexivity|].
  destruct Hretry as (_ & Hok & _); [discriminate|].
  exact Hok.
Defined.

(** The receipt of Alice's winning guess. *)
Lemma client_reads_guess_receipt_witness :
  succeeded (run (makeGuess plain_account Demo.alice 3 2) (Demo.table FULL_REWARD))
    = true ∧
  Client.guessMutation true true true
    (Client.Confirmed
       [Client.Described (Client.GuessEvaluated "0x07" true true FULL_REWARD)]) =
    Client.Resolved {| Client.suitMatched := true; Client.rankMatched := true;
                       Client.reward := FULL_REWARD |}.
Proof.
  assert (Hok : succeeded (run (makeGuess plain_account Demo.alice 3 2)
                             (Demo.table FULL_REWARD)) = true) by reflexivity.
  split; [exact Hok|].
  exact (proj1 (client_reads_guess_receipt (λ _, "0x07") (λ _, "0.002")
                  (Demo.table FULL_REWARD) Demo.alice 3 2
                  [Client.Described
                     (Client.GuessEvaluated "0x07" true true FULL_REWARD)]
                  Client.initialPage Hok eq_refl)).
Defined.

(** Alice's start receipt, read with handles written as text. *)
Lemma client_reads_start_receipt_witness :
  status (run_payable GAME_FEE (demo_startGame' Demo.block Demo.alice GAME_FEE)
            (deployed Demo.house GAME_FEE)) = inr (1003, 1002) ∧
  Client.startGameMutation true true
    (Client.Confirmed [Client.Null;
                       Client.Described (Client.GameStarted "0x07" "0x07" "0x07")]) =
    Client.Resolved (Some ("0x07", "0x07")).
Proof.
  assert (Hst : status (run_payable GAME_FEE
                          (demo_startGame' Demo.block Demo.alice GAME_FEE)
                          (deployed Demo.house GAME_FEE)) = inr (1003, 1002))
    by reflexivity.
  split; [exact Hst|].
  refine (proj1 (client_reads_start_receipt Demo.keccak Demo.asEuint8 Demo.allowThis
                   Demo.allow Demo.toBytes32 (λ _, "0x07") 0 0 Demo.block
                   (deployed Demo.house GAME_FEE) Demo.alice GAME_FEE
                   [Client.Null;
                    Client.Described (Client.GameStarted "0x07" "0x07" "0x07")]
                   Client.initialPage 1003 1002 Hst eq_refl _ _)); discriminate.
Defined.

(** Alice, holding suit 3 and rank 2 on a drained ledger, closes her
    session with a guess that misses both. *)
Lemma session_can_always_be_closed_witness :
  reachable Demo.keccak Demo.asEuint8 Demo.allowThis Demo.allow Demo.toBytes32
    (Demo.table (FULL_REWARD + GAME_FEE)) ∧
  active (session_of (Demo.table (FULL_REWARD + GAME_FEE)) Demo.alice) = true ∧
  ∃ sg rg,
    in_range sg rg ∧
    succeeded (run (makeGuess plain_account Demo.alice sg rg)
                 (Demo.table (FULL_REWARD + GAME_FEE))) = true.
Proof.
  assert (Hreach : reachable Demo.keccak Demo.asEuint8 Demo.allowThis Demo.allow
                     Demo.toBytes32 (Demo.table (FULL_REWARD + GAME_FEE)))
    by (apply demo_table_reachable; unfold FULL_REWARD, GAME_FEE; lia).
  assert (Ha : active (session_of (Demo.table (FULL_REWARD + GAME_FEE)) Demo.alice)
               = true) by reflexivity.
  split; [exact Hreach|]. split; [exact Ha|].
  destruct (session_can_always_be_closed Demo.keccak Demo.asEuint8 Demo.allowThis
              Demo.allow Demo.toBytes32 plain_account _ Demo.alice Hreach Ha)
    as (sg & rg & Hr & Hok & _).
  exists sg, rg. split; [exact Hr|exact Hok].
Defined.

(** The losing test with the deposit it makes, for Alice in [Demo.block]. *)
Lemma guessing_tests_pass_for_every_card_witness :
  FULL_REWARD ≤ FULL_REWARD ∧
  succeeded
    (run (makeGuess plain_account Demo.alice (wrongSuit 3) (wrongRank 2))
       (Demo.table (FULL_REWARD + GAME_FEE))) = true.
Proof.
  assert (Hf : FULL_REWARD ≤ FULL_REWARD) by apply Z.le_refl.
  split; [exact Hf|].
  destruct (guessing_tests_pass_for_every_card Demo.keccak Demo.asEuint8
              Demo.allowThis Demo.allow Demo.toBytes32 plain_account Demo.block
              Demo.house Demo.alice FULL_REWARD Hf) as (_ & (Hok & _) & _).
  exact Hok.
Defined.
